(** * Contact management API: ordered contact index

    A shallow embedding of the Express back ends of the contact management
    application, and the properties of its keyed contact store.

    Three server files are modelled:
    - [MapServer]: the Map-backed server (the "sorted key" variant with the
      binary-search lookup, [let contacts = new Map()]);
    - [ArrayServer]: the array-backed server of Milestone 2
      ([let contacts = []]);
    - [SqlServer]: the validation functions of the MySQL-backed server (its
      handlers delegate storage to the database and are not modelled).
    The form validation of the React client is in [ContactManager].
    Logging and CORS are left out.

    Conventions of the embedding:
    - a JavaScript string is the list of its UTF-16 code units ([jsstring]);
      [length], [<], [===], [trim] and the regular expressions of the source
      (none has the [u] flag) all work on code units;
    - a field of a contact object is [option jsstring]: a string, or [None]
      for a value that is falsy and not a string (an absent property,
      [undefined], [null], [0], [false]), which the code treats alike; a
      property of a request body can also be a truthy value that is not a
      string (a number, [true], an array, an object), on which [trim]
      cannot be called: module [Json] has the validators and handlers on
      such bodies, with the [TypeError] they throw and the 500 of the
      error middleware;
    - the module-level variable [contacts] is the state of a small state
      monad; a handler takes the request and returns the response together
      with the new value of [contacts];
    - a [Map] is the list of its entries in insertion order, which is the
      order [keys()] and [values()] enumerate them in. *)

From Stdlib Require Import List NArith ZArith Bool String Ascii Lia.
From Stdlib Require Import Permutation Sorted DecimalString DecimalNat.
From Equations Require Import Equations.
Import ListNotations.

Set Implicit Arguments.

(** ** JavaScript strings *)

Module Js.

Definition jsstring := list N.

(** The code units of an ASCII literal of the source. *)
Definition lit (s : string) : jsstring :=
  map N_of_ascii (list_ascii_of_string s).

Definition field := option jsstring.

(** [!v] for a field: [undefined], [null] and the empty string are falsy. *)
Definition falsy (v : field) : bool :=
  match v with
  | None => true
  | Some [] => true
  | Some (_ :: _) => false
  end.

Definition truthy (v : field) : bool := negb (falsy v).

(** [s === t] on strings. *)
Definition str_eqb (s t : jsstring) : bool :=
  if list_eq_dec N.eq_dec s t then true else false.

(** [s < t] on strings: lexicographic on code units. *)
Fixpoint str_ltb (s t : jsstring) : bool :=
  match s, t with
  | _, [] => false
  | [], _ :: _ => true
  | a :: s', b :: t' =>
      if (a <? b)%N then true
      else if (b <? a)%N then false
      else str_ltb s' t'
  end.

(** Inclusive ranges of code units, as in a character class. *)
Definition ranges := list (N * N).

Definition in_ranges (l : ranges) (c : N) : bool :=
  existsb (fun r => (fst r <=? c)%N && (c <=? snd r)%N) l.

(** The class [\s], which is also the set [String.prototype.trim] strips:
    WhiteSpace and LineTerminator of ECMA-262. *)
Definition white_space : ranges :=
  [ (9, 13); (32, 32); (160, 160); (5760, 5760); (8192, 8202);
    (8232, 8233); (8239, 8239); (8287, 8287); (12288, 12288);
    (65279, 65279) ]%N.

Definition is_space (c : N) : bool := in_ranges white_space c.

Fixpoint trimStart (s : jsstring) : jsstring :=
  match s with
  | [] => []
  | c :: s' => if is_space c then trimStart s' else s
  end.

Definition trimEnd (s : jsstring) : jsstring := rev (trimStart (rev s)).

Definition trim (s : jsstring) : jsstring := trimEnd (trimStart s).

(** [Array.prototype.sort]: the specification leaves the algorithm open
    but fixes the result for a consistent comparison, the stable sorted
    permutation; insertion sort computes it.  [le a b] is "a is not to be
    placed after b". *)
Section Sort.
Variable A : Type.
Variable le : A -> A -> bool.

Fixpoint insert (x : A) (l : list A) : list A :=
  match l with
  | [] => [x]
  | y :: l' => if le x y then x :: l else y :: insert x l'
  end.

(** Folding from the right keeps equal elements in their first order. *)
Definition sort (l : list A) : list A := fold_right insert [] l.
End Sort.

(** [arr.sort()] on an array of strings. *)
Definition sort_default (l : list jsstring) : list jsstring :=
  sort (fun a b => negb (str_ltb b a)) l.

End Js.

(** ** Regular expressions of the source *)

Module Regex.
Import Js.

(** A character class [[...]] or [[^...]]. *)
Inductive cset :=
| Pos (l : ranges)
| Neg (l : ranges).

Definition in_cset (cs : cset) (c : N) : bool :=
  match cs with
  | Pos l => in_ranges l c
  | Neg l => negb (in_ranges l c)
  end.

Inductive regex :=
| Void
| Eps
| Class (cs : cset)
| Cat (r1 r2 : regex)
| Alt (r1 r2 : regex)
| Star (r : regex).

(** [r?], [r+] and [r{n}]. *)
Definition Opt (r : regex) : regex := Alt r Eps.
Definition Plus (r : regex) : regex := Cat r (Star r).
Fixpoint Rep (n : nat) (r : regex) : regex :=
  match n with
  | O => Eps
  | S n' => Cat r (Rep n' r)
  end.

(** A single literal code unit. *)
Definition Chr (c : N) : regex := Class (Pos [(c, c)]).

Fixpoint nullable (r : regex) : bool :=
  match r with
  | Void => false
  | Eps => true
  | Class _ => false
  | Cat r1 r2 => nullable r1 && nullable r2
  | Alt r1 r2 => nullable r1 || nullable r2
  | Star _ => true
  end.

Definition cat (r1 r2 : regex) : regex :=
  match r1 with
  | Void => Void
  | Eps => r2
  | _ => Cat r1 r2
  end.

Definition alt (r1 r2 : regex) : regex :=
  match r1, r2 with
  | Void, _ => r2
  | _, Void => r1
  | _, _ => Alt r1 r2
  end.

Fixpoint deriv (c : N) (r : regex) : regex :=
  match r with
  | Void => Void
  | Eps => Void
  | Class cs => if in_cset cs c then Eps else Void
  | Cat r1 r2 =>
      if nullable r1
      then alt (cat (deriv c r1) r2) (deriv c r2)
      else cat (deriv c r1) r2
  | Alt r1 r2 => alt (deriv c r1) (deriv c r2)
  | Star r1 => cat (deriv c r1) (Star r1)
  end.

(** [/^r$/.test(s)]: the pattern has no flags, so [^] and [$] are the two
    ends of the input and [test] decides whether the whole of [s] is in
    the language of [r]. *)
Definition test (r : regex) (s : jsstring) : bool :=
  nullable (fold_left (fun r c => deriv c r) s r).

(** The language of a regular expression. *)
Inductive Matches : regex -> jsstring -> Prop :=
| MEps : Matches Eps []
| MClass cs c : in_cset cs c = true -> Matches (Class cs) [c]
| MCat r1 r2 s1 s2 :
    Matches r1 s1 -> Matches r2 s2 -> Matches (Cat r1 r2) (s1 ++ s2)
| MAltL r1 r2 s : Matches r1 s -> Matches (Alt r1 r2) s
| MAltR r1 r2 s : Matches r2 s -> Matches (Alt r1 r2) s
| MStarNil r : Matches (Star r) []
| MStarCons r s1 s2 :
    Matches r s1 -> Matches (Star r) s2 -> Matches (Star r) (s1 ++ s2).

(** Classes and patterns of the three server files. *)

(** [[^\s@]] *)
Definition not_space_at : cset := Neg (white_space ++ [(64, 64)]%N).
(** [[-.\s]] *)
Definition separator : cset := Pos ([(45, 45); (46, 46)]%N ++ white_space).
(** [[0-9]], which is also [\d] *)
Definition digit : cset := Pos [(48, 57)]%N.
(** [[\s\-\(\)]] *)
Definition space_hyphen_paren : cset :=
  Pos (white_space ++ [(45, 45); (40, 40); (41, 41)]%N).
(** [[^\d]] *)
Definition not_digit : cset := Neg [(48, 57)]%N.

(** [/^[^\s@]+@[^\s@]+\.[^\s@]+$/] *)
Definition emailRegex : regex :=
  Cat (Plus (Class not_space_at))
    (Cat (Chr 64)
       (Cat (Plus (Class not_space_at))
          (Cat (Chr 46) (Plus (Class not_space_at))))).

(** [/^(\+?1?[-.\s]?)?\(?([0-9]{3})\)?[-.\s]?([0-9]{3})[-.\s]?([0-9]{4})$/] *)
Definition phoneRegex : regex :=
  Cat (Opt (Cat (Opt (Chr 43)) (Cat (Opt (Chr 49)) (Opt (Class separator)))))
    (Cat (Opt (Chr 40))
       (Cat (Rep 3 (Class digit))
          (Cat (Opt (Chr 41))
             (Cat (Opt (Class separator))
                (Cat (Rep 3 (Class digit))
                   (Cat (Opt (Class separator))
                      (Rep 4 (Class digit)))))))).

(** [s.replace(/[...]/g, '')] for a one-character class: every code unit
    of the class is dropped. *)
Definition replace_all (cs : cset) (s : jsstring) : jsstring :=
  filter (fun c => negb (in_cset cs c)) s.

End Regex.

(** ** Contacts, validation reports and responses *)

Module Http.
Import Js.

(** A contact object, and also the JSON body of a request: the handlers
    read these six properties and no other. *)
Record contact := mkContact {
  id : field;
  firstName : field;
  lastName : field;
  phone : field;
  address : field;
  email : field
}.

Definition set_firstName (v : field) (c : contact) : contact :=
  mkContact (id c) v (lastName c) (phone c) (address c) (email c).
Definition set_lastName (v : field) (c : contact) : contact :=
  mkContact (id c) (firstName c) v (phone c) (address c) (email c).
Definition set_phone (v : field) (c : contact) : contact :=
  mkContact (id c) (firstName c) (lastName c) v (address c) (email c).
Definition set_address (v : field) (c : contact) : contact :=
  mkContact (id c) (firstName c) (lastName c) (phone c) v (email c).
Definition set_email (v : field) (c : contact) : contact :=
  mkContact (id c) (firstName c) (lastName c) (phone c) (address c) v.

(** The [errors] object of [validateContact]: property name and message,
    in the order the properties were created. *)
Definition report := list (string * string).

(** [errors.k = v] *)
Fixpoint set_prop (k v : string) (o : report) : report :=
  match o with
  | [] => [(k, v)]
  | (k', v') :: o' =>
      if String.eqb k' k then (k, v) :: o' else (k', v') :: set_prop k v o'
  end.

(** [errors.k] *)
Fixpoint get_prop (k : string) (o : report) : option string :=
  match o with
  | [] => None
  | (k', v') :: o' => if String.eqb k' k then Some v' else get_prop k o'
  end.

(** [Object.keys(errors)] *)
Definition keys (o : report) : list string := map fst o.

(** [if (e) errors.k = e;] for the result [e] of a field validator. *)
Definition set_if_error (k : string) (e : option string) (o : report)
  : report :=
  match e with
  | Some msg => set_prop k msg o
  | None => o
  end.

(** What [res.json(...)] is given. *)
Inductive json :=
| JContacts (l : list contact)
| JContact (c : option contact)
| JMessage (message : string)
| JError (error : string)
| JValidation (error : string) (details : report).

Record response := mkResponse { status : Z; body : json }.

(** The state monad of a handler over the module-level [contacts]. *)
Definition M (S A : Type) : Type := S -> A * S.

Definition ret {S A} (a : A) : M S A := fun s => (a, s).
Definition bind {S A B} (m : M S A) (k : A -> M S B) : M S B :=
  fun s => let (a, s') := m s in k a s'.
Definition gets {S A} (f : S -> A) : M S A := fun s => (f s, s).
Definition modify {S} (f : S -> S) : M S unit := fun s => (tt, f s).
Definition when {S} (b : bool) (m : M S unit) : M S unit :=
  if b then m else ret tt.

End Http.

Declare Scope monad_scope.
Delimit Scope monad_scope with monad.
Notation "x <- m ;; k" := (Http.bind m (fun x => k))
  (at level 61, m at next level, right associativity) : monad_scope.
Notation "m ;;; k" := (Http.bind m (fun _ => k))
  (at level 61, right associativity) : monad_scope.

Import Js Regex Http.
Local Open Scope string_scope.
Local Open Scope list_scope.
Local Open Scope monad_scope.

(** ** Field validators of the two in-memory servers

    [validateEmail], [validatePhone] and [validateAddress] have the same
    text in the Map-backed and in the array-backed server. *)

Module Fields.

(** [!v || !v.trim()] *)
Definition blank (v : field) : bool :=
  match v with
  | None => true
  | Some s => falsy v || falsy (Some (trim s))
  end.

Definition validateEmail (email : field) : option string :=
  match email with
  | None => Some "Email is required"
  | Some s =>
      if falsy email || falsy (Some (trim s)) then Some "Email is required"
      else if test emailRegex s then None
      else Some "Please enter a valid email address"
  end.

Definition validatePhone (phone : field) : option string :=
  match phone with
  | None => Some "Phone number is required"
  | Some s =>
      if falsy phone || falsy (Some (trim s))
      then Some "Phone number is required"
      else
        let cleanedPhone := replace_all space_hyphen_paren s in
        let digitsOnly := replace_all not_digit cleanedPhone in
        if (List.length digitsOnly <? 10)%nat
        then Some "Phone number must have at least 10 digits"
        else if test phoneRegex s then None
        else Some "Please enter a valid phone number (e.g., +1-555-123-4567 or 555-123-4567)"
  end.

Definition validateAddress (address : field) : option string :=
  match address with
  | None => None
  | Some s =>
      if truthy address && (200 <? List.length (trim s))%nat
      then Some "Address must be 200 characters or less"
      else None
  end.

(** [Object.keys(validationErrors).length > 0] *)
Definition has_errors (validationErrors : report) : bool :=
  (0 <? List.length (keys validationErrors))%nat.

End Fields.

Import Fields.

(** ** The Map-backed server *)

Module MapServer.

(** [let contacts = new Map()]: entries in insertion order. *)
Definition Map := list (jsstring * contact).

Fixpoint Map_get (k : jsstring) (m : Map) : option contact :=
  match m with
  | [] => None
  | (k', v) :: m' => if str_eqb k' k then Some v else Map_get k m'
  end.

Definition Map_has (k : jsstring) (m : Map) : bool :=
  match Map_get k m with Some _ => true | None => false end.

(** [set] replaces the value of a present key where it stands and puts a
    new key last. *)
Fixpoint Map_set (k : jsstring) (v : contact) (m : Map) : Map :=
  match m with
  | [] => [(k, v)]
  | (k', v') :: m' =>
      if str_eqb k' k then (k', v) :: m' else (k', v') :: Map_set k v m'
  end.

Definition Map_delete (k : jsstring) (m : Map) : Map :=
  filter (fun e => negb (str_eqb (fst e) k)) m.

Definition Map_keys (m : Map) : list jsstring := map fst m.
Definition Map_values (m : Map) : list contact := map snd m.

(** An assignment [contact.f = v] through the reference that
    [contacts.get(k)] returned: the object lives in the Map, so the
    assignment changes the entry of [k]. *)
Fixpoint Map_assign (k : jsstring) (f : contact -> contact) (m : Map) : Map :=
  match m with
  | [] => []
  | (k', v) :: m' =>
      if str_eqb k' k then (k', f v) :: m' else (k', v) :: Map_assign k f m'
  end.

(** The [if / else if / else if] chain on [contact.id]. *)
Definition validateId (v : field) (isNewContact : bool)
  : M Map (option string) :=
  match v with
  | None => ret (Some "ID is required")
  | Some s =>
      if blank v then ret (Some "ID is required")
      else if (10 <? List.length (trim s))%nat
      then ret (Some "ID must be 10 characters or less")
      else if isNewContact then
        has <- gets (Map_has (trim s)) ;;
        ret (if has then Some "ID already exists" else None)
      else ret None
  end.

Definition validateContact (contact : contact) (isNewContact : bool)
  : M Map report :=
  let errors : report := [] in
  idError <- validateId (id contact) isNewContact ;;
  let errors := set_if_error "id" idError errors in
  let errors :=
    if blank (firstName contact)
    then set_prop "firstName" "First name is required" errors else errors in
  let errors :=
    if blank (lastName contact)
    then set_prop "lastName" "Last name is required" errors else errors in
  let emailError := validateEmail (email contact) in
  let errors := set_if_error "email" emailError errors in
  let phoneError := validatePhone (phone contact) in
  let errors := set_if_error "phone" phoneError errors in
  let addressError := validateAddress (address contact) in
  let errors := set_if_error "address" addressError errors in
  ret errors.

(** [sortedIds[mid]]: [undefined] outside the array. *)
Definition index (sortedIds : list jsstring) (mid : Z) : option jsstring :=
  if (mid <? 0)%Z then None else nth_error sortedIds (Z.to_nat mid).

(** [Math.floor(left + (right - left) / 2)] *)
Definition middle (left right : Z) : Z := (left + (right - left) / 2)%Z.

(** The [while (left <= right)] loop of [GET /contacts/:id]; [true] when
    it returns from inside, at [sortedIds[mid] === id], and [false] when
    it runs to its end.  An [undefined] element is neither [===] nor [<]
    the id, which sends the loop to its last branch.  [lo] and [hi] are
    the variables [left] and [right] of the source. *)
Equations? search (sortedIds : list jsstring) (id : jsstring) (lo hi : Z)
  : bool by wf (Z.to_nat (hi - lo + 1)) lt :=
  search sortedIds id lo hi with Z_le_gt_dec lo hi := {
    | right _ => false
    | left _ with index sortedIds (middle lo hi) := {
        | Some x with str_eqb x id := {
            | true => true
            | false with str_ltb x id := {
                | true => search sortedIds id (middle lo hi + 1) hi
                | false => search sortedIds id lo (middle lo hi - 1) } }
        | None => search sortedIds id lo (middle lo hi - 1) } }.
Proof.
  all: unfold middle;
    assert (0 <= (hi - lo) / 2 <= hi - lo)%Z
      by (split; [apply Z.div_pos; lia | apply Z.div_le_upper_bound; lia]);
    lia.
Qed.

Section ListAll.
(** [String.prototype.localeCompare] is supplied by the host (its result
    depends on the locale data of the runtime). *)
Variable localeCompare : jsstring -> jsstring -> Z.

(** [(a, b) => a.id.localeCompare(b.id)]; every stored contact has a
    string id (see [post_contacts]), the other case is not reached. *)
Definition compare_id (a b : contact) : Z :=
  match Http.id a, Http.id b with
  | Some x, Some y => localeCompare x y
  | _, _ => 0%Z
  end.

(** [GET /contacts] *)
Definition get_contacts : M Map response :=
  sortedContacts <-
    gets (fun contacts =>
            sort (fun a b => (compare_id a b <=? 0)%Z)
              (Map_values contacts)) ;;
  ret (mkResponse 200 (JContacts sortedContacts)).
End ListAll.

(** [POST /contacts].  [validateContact] reports an absent id, so the
    key given to [contacts.set] is a string. *)
Definition post_contacts (body : contact) : M Map response :=
  validationErrors <- validateContact body true ;;
  if has_errors validationErrors
  then ret (mkResponse 400 (JValidation "Validation failed" validationErrors))
  else
    let contact :=
      mkContact (Http.id body) (firstName body) (lastName body)
        (phone body) (address body) (email body) in
    match Http.id body with
    | Some key => modify (Map_set key contact)
    | None => ret tt
    end ;;;
    ret (mkResponse 201 (JMessage "Contact added successfully")).

(** [PUT /contacts/:id].  [contact] is the object held by the Map, and
    each [contact.f = v] is an assignment to it. *)
Definition put_contact (id : jsstring) (body : contact) : M Map response :=
  has <- gets (Map_has id) ;;
  if negb has
  then ret (mkResponse 404 (JError "Contact not found"))
  else
    when (truthy (firstName body))
      (modify (Map_assign id (set_firstName (firstName body)))) ;;;
    when (truthy (lastName body))
      (modify (Map_assign id (set_lastName (lastName body)))) ;;;
    when (truthy (phone body))
      (modify (Map_assign id (set_phone (phone body)))) ;;;
    when (truthy (address body))
      (modify (Map_assign id (set_address (address body)))) ;;;
    when (truthy (email body))
      (modify (Map_assign id (set_email (email body)))) ;;;
    contact <- gets (Map_get id) ;;
    match contact with
    | None => ret (mkResponse 404 (JError "Contact not found"))
    | Some contact =>
        validationErrors <- validateContact contact false ;;
        if has_errors validationErrors
        then ret (mkResponse 400
                    (JValidation "Validation failed" validationErrors))
        else ret (mkResponse 200 (JMessage "Contact updated successfully"))
    end.

(** [DELETE /contacts/:id]: [contacts.delete(id)] tells whether the key
    was there. *)
Definition delete_contact (id : jsstring) : M Map response :=
  deleted <- (fun contacts => (Map_has id contacts, Map_delete id contacts)) ;;
  if deleted
  then ret (mkResponse 200 (JMessage "Contact deleted successfully"))
  else ret (mkResponse 404 (JError "Contact not found")).

(** [GET /contacts/:id] *)
Definition get_contact (id : jsstring) : M Map response :=
  sortedIds <- gets (fun contacts => sort_default (Map_keys contacts)) ;;
  if search sortedIds id 0 (Z.of_nat (List.length sortedIds) - 1)
  then
    contact <- gets (Map_get id) ;;
    ret (mkResponse 200 (JContact contact))
  else ret (mkResponse 404 (JError "Contact not found")).

(** The body of the loop of [loadTestData] for one line already split at
    the commas. *)
Definition loadLine (parts : list jsstring) : M Map unit :=
  match parts with
  | [id; firstName; lastName; phone; address; email] =>
      let contact :=
        mkContact (Some (trim id)) (Some (trim firstName))
          (Some (trim lastName)) (Some (trim phone))
          (Some (trim address)) (Some (trim email)) in
      validationErrors <- validateContact contact true ;;
      if (List.length (keys validationErrors) =? 0)%nat
      then modify (Map_set (trim id) contact)
      else ret tt
  | _ => ret tt
  end.

End MapServer.

(** ** The array-backed server (Milestone 2) *)

Module ArrayServer.

(** [c.id === id] for the id property of a stored contact. *)
Definition id_is (id : jsstring) (c : contact) : bool :=
  match Http.id c with
  | Some s => str_eqb s id
  | None => false
  end.

(** [contacts.findIndex(p)] *)
Fixpoint findIndex (p : contact -> bool) (contacts : list contact) : Z :=
  match contacts with
  | [] => (-1)%Z
  | c :: rest =>
      if p c then 0%Z
      else let i := findIndex p rest in
           if (i =? -1)%Z then (-1)%Z else (i + 1)%Z
  end.

(** [contacts[i] = v] for an index inside the array. *)
Fixpoint assign_nth (i : nat) (v : contact) (contacts : list contact)
  : list contact :=
  match contacts, i with
  | [], _ => []
  | _ :: rest, O => v :: rest
  | c :: rest, S i' => c :: assign_nth i' v rest
  end.

Definition validateId (v : field) (isNewContact : bool)
  : M (list contact) (option string) :=
  match v with
  | None => ret (Some "ID is required")
  | Some s =>
      if blank v then ret (Some "ID is required")
      else if (10 <? List.length (trim s))%nat
      then ret (Some "ID must be 10 characters or less")
      else if isNewContact then
        found <- gets (find (id_is (trim s))) ;;
        ret (match found with
             | Some _ =>
                 Some "ID already exists. Please choose a different ID."
             | None => None
             end)
      else ret None
  end.

Definition validateContact (contact : contact) (isNewContact : bool)
  : M (list Http.contact) report :=
  let errors : report := [] in
  idError <- validateId (Http.id contact) isNewContact ;;
  let errors := set_if_error "id" idError errors in
  let errors :=
    if blank (firstName contact)
    then set_prop "firstName" "First name is required" errors else errors in
  let errors :=
    if blank (lastName contact)
    then set_prop "lastName" "Last name is required" errors else errors in
  let emailError := validateEmail (email contact) in
  let errors := set_if_error "email" emailError errors in
  let phoneError := validatePhone (phone contact) in
  let errors := set_if_error "phone" phoneError errors in
  let addressError := validateAddress (address contact) in
  let errors := set_if_error "address" addressError errors in
  ret errors.

(** [GET /contacts] *)
Definition get_contacts : M (list contact) response :=
  contacts <- gets (fun contacts => contacts) ;;
  ret (mkResponse 200 (JContacts contacts)).

(** [POST /contacts] *)
Definition post_contacts (body : contact) : M (list contact) response :=
  validationErrors <- validateContact body true ;;
  if has_errors validationErrors
  then ret (mkResponse 400 (JValidation "Validation failed" validationErrors))
  else
    let contact :=
      mkContact (Http.id body) (firstName body) (lastName body)
        (phone body) (address body) (email body) in
    modify (fun contacts => (contacts ++ [contact])%list) ;;;
    ret (mkResponse 201 (JMessage "Contact added successfully")).

(** [PUT /contacts/:id] *)
Definition put_contact (id : jsstring) (body : contact)
  : M (list contact) response :=
  contactIndex <- gets (findIndex (id_is id)) ;;
  if (contactIndex =? -1)%Z
  then ret (mkResponse 404 (JError "Contact not found"))
  else
    validationErrors <- validateContact body false ;;
    if has_errors validationErrors
    then ret (mkResponse 400
                (JValidation "Validation failed" validationErrors))
    else
      modify (assign_nth (Z.to_nat contactIndex)
                (mkContact (Some id) (firstName body) (lastName body)
                   (phone body) (address body) (email body))) ;;;
      ret (mkResponse 200 (JMessage "Contact updated successfully")).

(** [DELETE /contacts/:id] *)
Definition delete_contact (id : jsstring) : M (list contact) response :=
  initialLength <- gets (@List.length contact) ;;
  modify (filter (fun c => negb (id_is id c))) ;;;
  newLength <- gets (@List.length contact) ;;
  if (newLength =? initialLength)%nat
  then ret (mkResponse 404 (JError "Contact not found"))
  else ret (mkResponse 200 (JMessage "Contact deleted successfully")).

End ArrayServer.

(** ** The MySQL-backed server: validation *)

Module SqlServer.

Definition validateEmail (email : field) : option string :=
  match email with
  | None => Some "Email is required"
  | Some s =>
      if falsy email then Some "Email is required"
      else if test emailRegex s then None
      else Some "Invalid email"
  end.

Definition validatePhone (phone : field) : option string :=
  match phone with
  | None => Some "Phone is required"
  | Some s =>
      if falsy phone then Some "Phone is required"
      else if test phoneRegex s then None
      else Some "Invalid phone"
  end.

Definition validateAddress (address : field) : option string :=
  match address with
  | None => None
  | Some s =>
      if truthy address && (200 <? List.length s)%nat
      then Some "Address must be 200 characters or less"
      else None
  end.

Definition validateContact (contact : contact) : report :=
  let errors : report := [] in
  let errors :=
    if falsy (Http.id contact)
       || match Http.id contact with
          | Some s => (10 <? List.length s)%nat
          | None => false
          end
    then set_prop "id" "ID must be 10 characters or less" errors
    else errors in
  let errors :=
    if falsy (firstName contact)
    then set_prop "firstName" "First name is required" errors else errors in
  let errors :=
    if falsy (lastName contact)
    then set_prop "lastName" "Last name is required" errors else errors in
  let emailError := validateEmail (email contact) in
  let errors := set_if_error "email" emailError errors in
  let phoneError := validatePhone (phone contact) in
  let errors := set_if_error "phone" phoneError errors in
  let addressError := validateAddress (address contact) in
  let errors := set_if_error "address" addressError errors in
  errors.

End SqlServer.

(** ** Request bodies whose properties need not be strings

    [express.json()] hands the handlers whatever the request carries.  The
    validators of the two in-memory servers call [trim] on every property
    that is truthy, which throws a [TypeError] when the property is not a
    string; the error middleware of both servers turns the exception into
    the answer 500. *)

Module Json.

(** A property of a parsed body: a string or a falsy value ([Plain]), or a
    truthy value that is not a string ([Truthy]): a non-zero number,
    [true], an array or an object. *)
Inductive property :=
| Plain (v : field)
| Truthy.

Record body := mkBody {
  id : property;
  firstName : property;
  lastName : property;
  phone : property;
  address : property;
  email : property
}.

Definition of_contact (c : contact) : body :=
  mkBody (Plain (Http.id c)) (Plain (Http.firstName c))
    (Plain (Http.lastName c)) (Plain (Http.phone c))
    (Plain (Http.address c)) (Plain (Http.email c)).

Definition is_truthy_other (p : property) : bool :=
  match p with
  | Plain _ => false
  | Truthy => true
  end.

(** Some property of the body is a truthy value that is not a string. *)
Definition has_truthy (b : body) : bool :=
  is_truthy_other (id b) || is_truthy_other (firstName b)
  || is_truthy_other (lastName b) || is_truthy_other (email b)
  || is_truthy_other (phone b) || is_truthy_other (address b).

(** The value of a property that is a string or falsy. *)
Definition plain (p : property) : field :=
  match p with
  | Plain v => v
  | Truthy => None
  end.

(** [{ id, firstName, lastName, phone, address, email }] once validation
    has passed, when every property is a string or falsy. *)
Definition to_contact (b : body) : contact :=
  mkContact (plain (id b)) (plain (firstName b)) (plain (lastName b))
    (plain (phone b)) (plain (address b)) (plain (email b)).

(** What a call gives: a value, or a thrown [TypeError]. *)
Inductive outcome (A : Type) :=
| Returned (a : A)
| Thrown.

Arguments Thrown {A}.

Definition andThen (A B : Type) (o : outcome A) (k : A -> outcome B)
  : outcome B :=
  match o with
  | Returned a => k a
  | Thrown => Thrown
  end.

(** [!v] *)
Definition not_ (v : property) : bool :=
  match v with
  | Plain f => falsy f
  | Truthy => false
  end.

(** [v.trim()]: only a string has the method. *)
Definition trim_of (v : property) : outcome jsstring :=
  match v with
  | Plain (Some s) => Returned (trim s)
  | Plain None => Thrown
  | Truthy => Thrown
  end.

(** [!v || !v.trim()] *)
Definition blank (v : property) : outcome bool :=
  if not_ v then Returned true
  else andThen (trim_of v) (fun t => Returned (falsy (Some t))).

Definition validateEmail (email : property) : outcome (option string) :=
  andThen (blank email) (fun required =>
  if required then Returned (Some "Email is required")
  else match email with
       | Plain (Some s) =>
           Returned (if test emailRegex s then None
                     else Some "Please enter a valid email address")
       | _ => Thrown
       end).

Definition validatePhone (phone : property) : outcome (option string) :=
  andThen (blank phone) (fun required =>
  if required then Returned (Some "Phone number is required")
  else match phone with
       | Plain (Some s) =>
           let cleanedPhone := replace_all space_hyphen_paren s in
           let digitsOnly := replace_all not_digit cleanedPhone in
           Returned
             (if (List.length digitsOnly <? 10)%nat
              then Some "Phone number must have at least 10 digits"
              else if test phoneRegex s then None
              else Some "Please enter a valid phone number (e.g., +1-555-123-4567 or 555-123-4567)")
       | _ => Thrown
       end).

(** [address && address.trim().length > 200] *)
Definition validateAddress (address : property) : outcome (option string) :=
  if not_ address then Returned None
  else andThen (trim_of address) (fun t =>
       Returned (if (200 <? List.length t)%nat
                 then Some "Address must be 200 characters or less"
                 else None)).

Section ValidateContact.

(** The two servers differ in the store, in how they look an id up in it
    ([contacts.has(k)], [contacts.find(c => c.id === k)]) and in the
    message for an id that is found. *)
Variable S : Type.
Variable known : jsstring -> S -> bool.
Variable known_message : string.

Definition validateId (v : property) (isNewContact : bool)
  : M S (outcome (option string)) :=
  match blank v with
  | Thrown => ret Thrown
  | Returned true => ret (Returned (Some "ID is required"))
  | Returned false =>
      match trim_of v with
      | Thrown => ret Thrown
      | Returned t =>
          if (10 <? List.length t)%nat
          then ret (Returned (Some "ID must be 10 characters or less"))
          else if isNewContact then
            has <- gets (known t) ;;
            ret (Returned (if has then Some known_message else None))
          else ret (Returned None)
      end
  end.

(** [validateContact]: the rules run in the order of the source, and the
    first [trim] that throws ends the call. *)
Definition validateContact (contact : body) (isNewContact : bool)
  : M S (outcome report) :=
  idError <- validateId (id contact) isNewContact ;;
  ret (andThen idError (fun idError =>
       let errors := set_if_error "id" idError [] in
       andThen (blank (firstName contact)) (fun noFirstName =>
       let errors :=
         if noFirstName
         then set_prop "firstName" "First name is required" errors
         else errors in
       andThen (blank (lastName contact)) (fun noLastName =>
       let errors :=
         if noLastName
         then set_prop "lastName" "Last name is required" errors
         else errors in
       andThen (validateEmail (email contact)) (fun emailError =>
       let errors := set_if_error "email" emailError errors in
       andThen (validatePhone (phone contact)) (fun phoneError =>
       let errors := set_if_error "phone" phoneError errors in
       andThen (validateAddress (address contact)) (fun addressError =>
       let errors := set_if_error "address" addressError errors in
       Returned errors))))))).

End ValidateContact.

(** [validateContact] of the Map-backed and of the array-backed server. *)
Definition Map_validateContact
  : body -> bool -> M MapServer.Map (outcome report) :=
  validateContact MapServer.Map_has "ID already exists".

Definition Array_validateContact
  : body -> bool -> M (list contact) (outcome report) :=
  validateContact
    (fun k contacts =>
       match find (ArrayServer.id_is k) contacts with
       | Some _ => true
       | None => false
       end)
    "ID already exists. Please choose a different ID.".

(** The error middleware: [res.status(500).json({ error: ... })]. *)
Definition internal_error : response :=
  mkResponse 500 (JError "Internal server error").

(** [POST /contacts] of the Map-backed server. *)
Definition Map_post (body : body) : M MapServer.Map response :=
  validationErrors <- Map_validateContact body true ;;
  match validationErrors with
  | Thrown => ret internal_error
  | Returned validationErrors =>
      if has_errors validationErrors
      then ret (mkResponse 400
                  (JValidation "Validation failed" validationErrors))
      else
        match id body with
        | Plain (Some key) =>
            modify (MapServer.Map_set key (to_contact body))
        | _ => ret tt
        end ;;;
        ret (mkResponse 201 (JMessage "Contact added successfully"))
  end.

(** [POST /contacts] of the array-backed server. *)
Definition Array_post (body : body) : M (list contact) response :=
  validationErrors <- Array_validateContact body true ;;
  match validationErrors with
  | Thrown => ret internal_error
  | Returned validationErrors =>
      if has_errors validationErrors
      then ret (mkResponse 400
                  (JValidation "Validation failed" validationErrors))
      else
        modify (fun contacts => contacts ++ [to_contact body]) ;;;
        ret (mkResponse 201 (JMessage "Contact added successfully"))
  end.

(** [PUT /contacts/:id] of the array-backed server. *)
Definition Array_put (id : jsstring) (body : body)
  : M (list contact) response :=
  contactIndex <- gets (ArrayServer.findIndex (ArrayServer.id_is id)) ;;
  if (contactIndex =? -1)%Z
  then ret (mkResponse 404 (JError "Contact not found"))
  else
    validationErrors <- Array_validateContact body false ;;
    match validationErrors with
    | Thrown => ret internal_error
    | Returned validationErrors =>
        if has_errors validationErrors
        then ret (mkResponse 400
                    (JValidation "Validation failed" validationErrors))
        else
          modify (ArrayServer.assign_nth (Z.to_nat contactIndex)
                    (mkContact (Some id) (plain (firstName body))
                       (plain (lastName body)) (plain (phone body))
                       (plain (address body)) (plain (email body)))) ;;;
          ret (mkResponse 200 (JMessage "Contact updated successfully"))
    end.

End Json.

(** ** The Map-backed server: start-up data and the benchmark route *)

Module Startup.

Import MapServer.

(** [for (const x of xs) { ... }] in the monad of a handler. *)
Fixpoint forEach (S A : Type) (xs : list A) (body : A -> M S unit)
  : M S unit :=
  match xs with
  | [] => ret tt
  | x :: rest => body x ;;; forEach rest body
  end.

(** [s.split(sep)] for a separator of one code unit: the pieces between
    the separators, of which there is always at least one. *)
Fixpoint split (sep : N) (s : jsstring) : list jsstring :=
  match s with
  | [] => [[]]
  | c :: s' =>
      if (c =? sep)%N then [] :: split sep s'
      else match split sep s' with
           | p :: ps => (c :: p) :: ps
           | [] => [[c]]
           end
  end.

(** [loadTestData] from the contents [data] of [TestData.txt] (the read of
    the file, which may fail into the [catch], stays outside): the lines
    are those of [data.trim().split('\n')], a blank line is skipped, and
    so is a line that does not have six fields ([loadLine]). *)
Definition loadTestData (data : jsstring) : M Map unit :=
  let lines := split 10 (trim data) in
  forEach lines
    (fun line =>
       if falsy (Some (trim line)) then ret tt
       else loadLine (split 44 line)).

(** [String(i)] for a natural number. *)
Definition String_ (i : nat) : jsstring :=
  lit (NilEmpty.string_of_uint (Nat.to_uint i)).

(** The contact that [GET /performance] builds for [i]. *)
Definition testContact (i : nat) : contact :=
  mkContact (Some (String_ i))
    (Some (lit "Name" ++ String_ i))
    (Some (lit "Last" ++ String_ i))
    (Some (lit "1234567890"))
    (Some (lit "Addr" ++ String_ i))
    (Some (lit "email" ++ String_ i ++ lit "@example.com")).

(** [for (let i = 0; i < 100; i++) testContacts.push(...)] *)
Definition testContacts : list contact := map testContact (seq 0 100).

(** What [GET /performance] does to [contacts]:
    [testContacts.forEach(c => contacts.set(c.id, c))].  The lookup and the
    search that follow only read, and the response carries three clock
    readings, which have no place here. *)
Definition performance : M Map unit :=
  forEach testContacts
    (fun c =>
       match Http.id c with
       | Some key => modify (Map_set key c)
       | None => ret tt
       end).

End Startup.

(** ** The React client: form validation *)

Module ContactManager.

(** The contact of a form ([newContact] or [editingContact]): the inputs
    hold strings; the address of a contact under edit may be [null]. *)
Record form := mkForm {
  id : jsstring;
  firstName : jsstring;
  lastName : jsstring;
  phone : jsstring;
  address : field;
  email : jsstring
}.

Definition validateEmail (email : jsstring) : option string :=
  if test emailRegex email then None
  else Some "Please enter a valid email address".

Definition validatePhone (phone : jsstring) : option string :=
  let cleanedPhone := replace_all space_hyphen_paren phone in
  let digitsOnly := replace_all not_digit cleanedPhone in
  if (List.length digitsOnly <? 10)%nat
  then Some "Phone number must have at least 10 digits"
  else if test phoneRegex phone then None
  else Some "Please enter a valid phone number (e.g., +1-555-123-4567 or 555-123-4567)".

(** [!s.trim()] *)
Definition empty_trim (s : jsstring) : bool := falsy (Some (trim s)).

(** [e || msg] for the result [e] of a validator. *)
Definition or_else (e : option string) (msg : string) : string :=
  match e with
  | Some m => m
  | None => msg
  end.

(** [validateId]; [editing] is whether [editingContact] is set and
    [contacts] is the list the component holds. *)
Definition validateId (editing : bool) (contacts : list contact)
  (id : jsstring) : option string :=
  if empty_trim id then Some "ID is required"
  else if (10 <? List.length (trim id))%nat
  then Some "ID must be 10 characters or less"
  else if negb editing
          && match find (ArrayServer.id_is (trim id)) contacts with
             | Some _ => true
             | None => false
             end
  then Some "ID already exists. Please choose a different ID."
  else None.

Definition validateForm (editing : bool) (contacts : list Http.contact)
  (contact : form) : report :=
  let errors : report := [] in
  let errors :=
    if empty_trim (id contact) then set_prop "id" "ID is required" errors
    else if (10 <? List.length (trim (id contact)))%nat
    then set_prop "id" "ID must be 10 characters or less" errors
    else if negb editing
            && match find (ArrayServer.id_is (trim (id contact))) contacts with
               | Some _ => true
               | None => false
               end
    then set_prop "id" "ID already exists. Please choose a different ID."
           errors
    else errors in
  let errors :=
    if empty_trim (firstName contact)
    then set_prop "firstName" "First name is required" errors else errors in
  let errors :=
    if empty_trim (lastName contact)
    then set_prop "lastName" "Last name is required" errors else errors in
  let errors :=
    if empty_trim (phone contact)
    then set_prop "phone"
           (or_else (validatePhone (phone contact)) "Phone number is required")
           errors
    else errors in
  let errors :=
    if empty_trim (email contact)
    then set_prop "email"
           (or_else (validateEmail (email contact)) "Email address is required")
           errors
    else errors in
  let errors :=
    match address contact with
    | Some a =>
        if truthy (address contact) && (200 <? List.length (trim a))%nat
        then set_prop "address" "Address must be 200 characters or less"
               errors
        else errors
    | None => errors
    end in
  errors.

(** [contactToAdd] of [handleAdd]: the form with its id trimmed, as it is
    sent in the body of the POST. *)
Definition contactToAdd (newContact : form) : Http.contact :=
  mkContact (Some (trim (id newContact))) (Some (firstName newContact))
    (Some (lastName newContact)) (Some (phone newContact))
    (address newContact) (Some (email newContact)).

(** The body [handleAdd] posts, if it posts: nothing is sent when
    [validateForm] reports an error. *)
Definition handleAdd_request (editing : bool) (contacts : list Http.contact)
  (newContact : form) : option Http.contact :=
  if has_errors (validateForm editing contacts newContact) then None
  else Some (contactToAdd newContact).

(** The body [handleUpdate] puts, if it does: the contact as it is. *)
Definition handleUpdate_request (editing : bool)
  (contacts : list Http.contact) (contact : form) : option Http.contact :=
  if has_errors (validateForm editing contacts contact) then None
  else Some (mkContact (Some (id contact)) (Some (firstName contact))
               (Some (lastName contact)) (Some (phone contact))
               (address contact) (Some (email contact))).

End ContactManager.

(** ** Properties stated about the servers *)

(** No error reported by any rule of [validateContact] (the check against
    the other ids apart): what a stored record has to satisfy. *)
Definition record_ok (c : contact) : bool :=
  negb (blank (Http.id c))
  && match Http.id c with
     | Some s => (List.length (trim s) <=? 10)%nat
     | None => false
     end
  && negb (blank (firstName c))
  && negb (blank (lastName c))
  && match validateEmail (email c) with None => true | Some _ => false end
  && match validatePhone (phone c) with None => true | Some _ => false end
  && match validateAddress (address c) with None => true | Some _ => false end.

(** A Map of the server: keys are distinct and every contact sits under
    its own id. *)
Definition Map_wf (contacts : MapServer.Map) : Prop :=
  NoDup (MapServer.Map_keys contacts)
  /\ Forall (fun e => Http.id (snd e) = Some (fst e)) contacts.

(** Every stored record passes the field rules. *)
Definition Map_valid (contacts : MapServer.Map) : Prop :=
  Forall (fun e => record_ok (snd e) = true) contacts.

Definition Array_valid (contacts : list contact) : Prop :=
  Forall (fun c => record_ok c = true) contacts.

(** The contact object after the five conditional assignments of the
    Map-backed [PUT /contacts/:id]. *)
Definition merged (body c : contact) : contact :=
  let c := if truthy (firstName body)
           then set_firstName (firstName body) c else c in
  let c := if truthy (lastName body)
           then set_lastName (lastName body) c else c in
  let c := if truthy (phone body) then set_phone (phone body) c else c in
  let c := if truthy (address body)
           then set_address (address body) c else c in
  let c := if truthy (email body) then set_email (email body) c else c in
  c.

(** The ids of a listing. *)
Definition ids (l : list contact) : list field := map Http.id l.

(** Strictly ascending in the order of [<] on strings. *)
Definition ascending (l : list field) : Prop :=
  StronglySorted
    (fun a b => match a, b with
                | Some x, Some y => str_ltb x y = true
                | _, _ => False
                end) l.

(** The contacts of a listing response. *)
Definition listed (r : response) : list contact :=
  match body r with
  | JContacts l => l
  | _ => []
  end.

(** The code-unit comparison as a [localeCompare]: what a host without
    locale data computes. *)
Definition codeUnitCompare (a b : jsstring) : Z :=
  if str_ltb a b then (-1)%Z else if str_ltb b a then 1%Z else 0%Z.

(** The digits left once spaces, hyphens and parentheses are stripped:
    [digitsOnly] of [validatePhone]. *)
Definition digitsOnly (s : jsstring) : jsstring :=
  replace_all not_digit (replace_all space_hyphen_paren s).

(** A class all of whose code units are decimal digits. *)
Definition only_digits (cs : cset) : bool :=
  match cs with
  | Pos l => forallb (fun r => (48 <=? fst r)%N && (snd r <=? 57)%N) l
  | Neg _ => false
  end.

(** A lower bound on the number of digits of a string of the language. *)
Fixpoint min_digits (r : regex) : nat :=
  match r with
  | Void => 0
  | Eps => 0
  | Class cs => if only_digits cs then 1 else 0
  | Cat r1 r2 => min_digits r1 + min_digits r2
  | Alt r1 r2 => Nat.min (min_digits r1) (min_digits r2)
  | Star _ => 0
  end.

Definition count_digits (s : jsstring) : nat :=
  List.length (filter (in_cset digit) s).

(** No key of the Map has white space at either end. *)
Definition keys_trimmed (contacts : MapServer.Map) : Prop :=
  Forall (fun k => trim k = k) (MapServer.Map_keys contacts).

(** The ids of the array are pairwise distinct strings without white space
    at either end. *)
Definition Array_unique (contacts : list contact) : Prop :=
  NoDup (ids contacts)
  /\ Forall (fun c => exists k, Http.id c = Some k /\ trim k = k) contacts.

(** A class none of whose code units is white space. *)
Definition class_no_space (cs : cset) : bool :=
  match cs with
  | Pos l =>
      forallb (fun r =>
                 forallb (fun w => (snd r <? fst w)%N || (snd w <? fst r)%N)
                   white_space) l
  | Neg l =>
      forallb (fun w =>
                 existsb (fun r => (fst r <=? fst w)%N && (snd w <=? snd r)%N)
                   l) white_space
  end.

(** No string of the language has white space in it. *)
Fixpoint no_space (r : regex) : bool :=
  match r with
  | Void => true
  | Eps => true
  | Class cs => class_no_space cs
  | Cat r1 r2 => no_space r1 && no_space r2
  | Alt r1 r2 => no_space r1 && no_space r2
  | Star r1 => no_space r1
  end.

(** A lower bound on the length of a string of the language. *)
Fixpoint min_len (r : regex) : nat :=
  match r with
  | Void => 0
  | Eps => 0
  | Class _ => 1
  | Cat r1 r2 => min_len r1 + min_len r2
  | Alt r1 r2 => Nat.min (min_len r1) (min_len r2)
  | Star _ => 0
  end.

(** The last contact of a list that has the id [k]. *)
Fixpoint last_with_id (k : jsstring) (l : list contact) : option contact :=
  match l with
  | [] => None
  | c :: rest =>
      match last_with_id k rest with
      | Some c' => Some c'
      | None => if ArrayServer.id_is k c then Some c else None
      end
  end.

(** A filled form of the React client. *)
Definition sample_form (i p e : string) : ContactManager.form :=
  ContactManager.mkForm (lit i) (lit "Jo") (lit "Li") (lit p) None (lit e).

(** Sample requests. *)
Definition sample (i : string) : contact :=
  mkContact (Some (lit i)) (Some (lit "Jo")) (Some (lit "Li"))
    (Some (lit "555-123-4567")) None (Some (lit "jo@x.com")).

Definition no_fields : contact := mkContact None None None None None None.

(** The store after a sequence of [POST /contacts] on an empty store. *)
Definition map_after (requests : list contact) : MapServer.Map :=
  fold_left (fun s c => snd (MapServer.post_contacts c s)) requests [].

Definition array_after (requests : list contact) : list contact :=
  fold_left (fun s c => snd (ArrayServer.post_contacts c s)) requests [].

(** An update that only carries a phone number. *)
Definition phone_only (p : string) : contact :=
  set_phone (Some (lit p)) no_fields.

(** A request body in which a number stands where the first name should
    be, as in [{ "id": "A1", "firstName": 123, ... }]; its phone number
    and its email address fail their rules. *)
Definition number_for_name (i : field) : Json.body :=
  Json.mkBody (Json.Plain i) Json.Truthy (Json.Plain (Some (lit "Li")))
    (Json.Plain (Some (lit "bad"))) (Json.Plain None)
    (Json.Plain (Some (lit "junk"))).

(** Proof steps shared below: running the state monad, and the case split
    on the outcome of the five field rules. *)
Ltac run := unfold bind, ret, gets, modify, when.

Ltac split_fields c :=
  destruct (blank (firstName c)), (blank (lastName c)),
    (validateEmail (email c)), (validatePhone (phone c)),
    (validateAddress (address c)).

(** ** Strings *)

Section Strings.

Lemma str_eqb_eq (s t : jsstring) : str_eqb s t = true <-> s = t.
Proof.
  unfold str_eqb. destruct (list_eq_dec N.eq_dec s t); split; congruence.
Qed.

Lemma str_eqb_neq (s t : jsstring) : str_eqb s t = false <-> s <> t.
Proof.
  unfold str_eqb. destruct (list_eq_dec N.eq_dec s t); split; congruence.
Qed.

Lemma str_eqb_refl (s : jsstring) : str_eqb s s = true.
Proof. apply str_eqb_eq. reflexivity. Qed.

Lemma str_ltb_irrefl (s : jsstring) : str_ltb s s = false.
Proof.
  induction s as [|a s IH]; simpl; [reflexivity|].
  rewrite N.ltb_irrefl. exact IH.
Qed.

Lemma str_ltb_trans (s t u : jsstring) :
  str_ltb s t = true -> str_ltb t u = true -> str_ltb s u = true.
Proof.
  revert t u. induction s as [|a s IH]; intros [|b t] [|c u]; simpl;
    try congruence.
  destruct (N.ltb_spec a b), (N.ltb_spec b a), (N.ltb_spec b c),
    (N.ltb_spec c b), (N.ltb_spec a c), (N.ltb_spec c a);
    try congruence; try lia.
  apply IH.
Qed.

Lemma str_ltb_asym (s t : jsstring) :
  str_ltb s t = true -> str_ltb t s = false.
Proof.
  intros H. destruct (str_ltb t s) eqn:E; [|reflexivity].
  pose proof (str_ltb_trans _ _ _ H E) as K.
  rewrite str_ltb_irrefl in K. discriminate.
Qed.

Lemma str_ltb_total (s t : jsstring) :
  str_ltb s t = false -> str_ltb t s = false -> s = t.
Proof.
  revert t. induction s as [|a s IH]; intros [|b t]; simpl;
    try congruence.
  destruct (N.ltb_spec a b), (N.ltb_spec b a); try congruence; try lia.
  intros H1 H2. f_equal; [lia | apply IH; assumption].
Qed.

Lemma in_ranges_spec (l : ranges) (c : N) :
  in_ranges l c = true <->
  exists r, In r l /\ (fst r <= c)%N /\ (c <= snd r)%N.
Proof.
  unfold in_ranges. rewrite existsb_exists.
  split; intros [r [Hin H]]; exists r; split; try assumption.
  - apply andb_true_iff in H. destruct H as [H1 H2].
    apply N.leb_le in H1. apply N.leb_le in H2. split; assumption.
  - apply andb_true_iff. split; apply N.leb_le; tauto.
Qed.

Lemma digit_range (c : N) :
  in_cset digit c = true <-> (48 <= c <= 57)%N.
Proof.
  unfold digit, in_cset. rewrite in_ranges_spec. split.
  - intros [r [[<-|[]] H]]. simpl in H. lia.
  - intros H. exists (48, 57)%N. simpl. split; [left; reflexivity | lia].
Qed.

Lemma space_stripped (c : N) :
  is_space c = true -> in_cset space_hyphen_paren c = true.
Proof.
  unfold is_space, space_hyphen_paren, in_cset. rewrite !in_ranges_spec.
  intros [r [Hin H]]. exists r. split; [|exact H].
  apply in_or_app. left. exact Hin.
Qed.

Lemma digit_not_stripped (c : N) :
  in_cset digit c = true -> in_cset space_hyphen_paren c = false.
Proof.
  rewrite digit_range. intros H.
  destruct (in_cset space_hyphen_paren c) eqn:E; [|reflexivity].
  unfold space_hyphen_paren, in_cset in E.
  apply in_ranges_spec in E. destruct E as [r [Hin Hr]].
  simpl in Hin.
  repeat (destruct Hin as [<-|Hin]; [simpl in Hr; lia|]).
  destruct Hin.
Qed.

Lemma trimStart_nil (s : jsstring) :
  trimStart s = [] -> forallb is_space s = true.
Proof.
  induction s as [|c s IH]; simpl; [reflexivity|].
  destruct (is_space c); [exact IH | discriminate].
Qed.

Lemma trimStart_all_space (s : jsstring) :
  forallb is_space s = true -> trimStart s = [].
Proof.
  induction s as [|c s IH]; simpl; [reflexivity|].
  destruct (is_space c); simpl; [exact IH | discriminate].
Qed.

Lemma trimStart_suffix (s : jsstring) :
  exists p, s = (p ++ trimStart s)%list /\ forallb is_space p = true.
Proof.
  induction s as [|c s [p [Hp Hs]]]; simpl.
  - exists []. split; reflexivity.
  - destruct (is_space c) eqn:E.
    + exists (c :: p). simpl. rewrite E, Hs. split; [f_equal; exact Hp | reflexivity].
    + exists []. split; reflexivity.
Qed.

Lemma trim_nil (s : jsstring) : trim s = [] -> forallb is_space s = true.
Proof.
  unfold trim, trimEnd. intros H.
  apply (f_equal (@rev N)) in H. rewrite rev_involutive in H. simpl in H.
  apply trimStart_nil in H.
  destruct (trimStart_suffix s) as [p [Hp Hs]].
  rewrite Hp, forallb_app, Hs. simpl.
  rewrite forallb_forall in *. intros x Hx. apply H.
  apply in_rev in Hx. exact Hx.
Qed.

Lemma blank_no_digits (s : jsstring) :
  blank (Some s) = true ->
  replace_all not_digit (replace_all space_hyphen_paren s) = [].
Proof.
  unfold blank. intros H.
  assert (Hsp : forallb is_space s = true).
  { destruct s as [|c s]; [reflexivity|]. simpl in H.
    destruct (trim (c :: s)) eqn:E; [|discriminate].
    apply trim_nil. exact E. }
  assert (Hnil : replace_all space_hyphen_paren s = []).
  { clear H. induction s as [|c s IH]; [reflexivity|].
    simpl in Hsp. apply andb_true_iff in Hsp. destruct Hsp as [Hc Hs].
    unfold replace_all in *. cbn [filter].
    rewrite (space_stripped _ Hc). cbn [negb]. apply IH. exact Hs. }
  rewrite Hnil. reflexivity.
Qed.

End Strings.

(** ** The matcher decides the language *)

Section RegexSound.

Lemma nullable_Matches (r : regex) : nullable r = true -> Matches r [].
Proof.
  induction r; simpl; intros H; try discriminate.
  - constructor.
  - apply andb_true_iff in H. destruct H as [H1 H2].
    change (@nil N) with (@nil N ++ @nil N)%list.
    constructor; auto.
  - apply orb_true_iff in H. destruct H as [H|H].
    + apply MAltL. auto.
    + apply MAltR. auto.
  - constructor.
Qed.

Lemma Matches_cat (r1 r2 : regex) (s : jsstring) :
  Matches (cat r1 r2) s -> Matches (Cat r1 r2) s.
Proof.
  destruct r1; simpl; intros H; try exact H.
  - inversion H.
  - change s with ([] ++ s)%list. constructor; [constructor | exact H].
Qed.

Lemma Matches_alt (r1 r2 : regex) (s : jsstring) :
  Matches (alt r1 r2) s -> Matches (Alt r1 r2) s.
Proof.
  destruct r1, r2; simpl; intros H; try exact H;
    try (apply MAltR; exact H); try (apply MAltL; exact H).
Qed.

Lemma deriv_sound (c : N) (r : regex) :
  forall s, Matches (deriv c r) s -> Matches r (c :: s).
Proof.
  induction r as [| |cs|r1 IH1 r2 IH2|r1 IH1 r2 IH2|r1 IH1]; simpl; intros s H.
  - inversion H.
  - inversion H.
  - destruct (in_cset cs c) eqn:E; inversion H; subst.
    constructor. exact E.
  - assert (Hcat : forall s, Matches (cat (deriv c r1) r2) s ->
                              Matches (Cat r1 r2) (c :: s)).
    { intros s' H'. apply Matches_cat in H'. inversion H'; subst.
      change (c :: s1 ++ s2)%list with ((c :: s1) ++ s2)%list.
      constructor; auto. }
    destruct (nullable r1) eqn:E.
    + apply Matches_alt in H. inversion H; subst.
      * apply Hcat. assumption.
      * change (c :: s) with ([] ++ c :: s)%list.
        constructor; [apply nullable_Matches; exact E | auto].
    + apply Hcat. exact H.
  - apply Matches_alt in H. inversion H; subst.
    + apply MAltL. auto.
    + apply MAltR. auto.
  - apply Matches_cat in H. inversion H; subst.
    change (c :: s1 ++ s2)%list with ((c :: s1) ++ s2)%list.
    constructor; auto.
Qed.

Lemma test_sound (s : jsstring) :
  forall r, test r s = true -> Matches r s.
Proof.
  unfold test. induction s as [|c s IH]; simpl; intros r H.
  - apply nullable_Matches. exact H.
  - apply deriv_sound. apply IH. exact H.
Qed.

Lemma only_digits_class (cs : cset) (c : N) :
  only_digits cs = true -> in_cset cs c = true -> in_cset digit c = true.
Proof.
  destruct cs as [l|l]; simpl; [|discriminate].
  intros Hall Hin. apply in_ranges_spec in Hin.
  destruct Hin as [r [Hr [H1 H2]]].
  rewrite forallb_forall in Hall. specialize (Hall r Hr).
  apply andb_true_iff in Hall. destruct Hall as [Ha Hb].
  apply N.leb_le in Ha. apply N.leb_le in Hb.
  apply digit_range. lia.
Qed.

Lemma count_digits_app (s t : jsstring) :
  count_digits (s ++ t) = count_digits s + count_digits t.
Proof.
  unfold count_digits. rewrite filter_app, length_app. reflexivity.
Qed.

Lemma Matches_min_digits (r : regex) (s : jsstring) :
  Matches r s -> min_digits r <= count_digits s.
Proof.
  induction 1; simpl min_digits; try rewrite count_digits_app; try lia.
  destruct (only_digits cs) eqn:E; [|lia].
  unfold count_digits. cbn [filter].
  rewrite (only_digits_class cs c E H). simpl. lia.
Qed.

Lemma digitsOnly_count (s : jsstring) :
  List.length (digitsOnly s) = count_digits s.
Proof.
  unfold digitsOnly, count_digits, replace_all.
  induction s as [|c s IH]; [reflexivity|].
  cbn [filter].
  destruct (in_cset digit c) eqn:D.
  - rewrite (digit_not_stripped c D). cbn [negb filter].
    replace (in_cset not_digit c) with false
      by (unfold not_digit, digit, in_cset in *; rewrite D; reflexivity).
    cbn [negb List.length]. rewrite IH. reflexivity.
  - destruct (in_cset space_hyphen_paren c); cbn [negb filter]; [exact IH|].
    replace (in_cset not_digit c) with true
      by (unfold not_digit, digit, in_cset in *; rewrite D; reflexivity).
    cbn [negb]. exact IH.
Qed.

Lemma phoneRegex_ten_digits (s : jsstring) :
  test phoneRegex s = true -> 10 <= List.length (digitsOnly s).
Proof.
  intros H. rewrite digitsOnly_count.
  apply test_sound in H. apply Matches_min_digits in H. exact H.
Qed.

End RegexSound.

(** ** Phone validation *)

Section Phone.

Lemma validatePhone_accepts (s : jsstring) :
  validatePhone (Some s) = None <->
  (10 <= List.length (digitsOnly s))%nat /\ test phoneRegex s = true.
Proof.
  unfold validatePhone, digitsOnly.
  destruct (falsy (Some s) || falsy (Some (trim s))) eqn:B.
  - split; [discriminate|]. intros [H _].
    rewrite (blank_no_digits s) in H by exact B. simpl in H. lia.
  - destruct (Nat.ltb_spec
                (List.length
                   (replace_all not_digit (replace_all space_hyphen_paren s)))
                10) as [L|L].
    + split; [discriminate | intros [H _]; lia].
    + destruct (test phoneRegex s); split; try discriminate; auto.
      intros [_ H]. discriminate.
Qed.

Lemma sql_validatePhone_accepts (s : jsstring) :
  SqlServer.validatePhone (Some s) = None <->
  (10 <= List.length (digitsOnly s))%nat /\ test phoneRegex s = true.
Proof.
  unfold SqlServer.validatePhone.
  destruct s as [|c s].
  - simpl. split; [discriminate | intros [_ H]; discriminate].
  - cbn [falsy]. destruct (test phoneRegex (c :: s)) eqn:T.
    + split; [|reflexivity]. intros _. split; [|reflexivity].
      apply phoneRegex_ten_digits. exact T.
    + split; [discriminate | intros [_ H]; discriminate].
Qed.

End Phone.

(** ** Sorting *)

Section SortFacts.

Variable A : Type.
Variable le : A -> A -> bool.

Lemma insert_perm (x : A) (l : list A) : Permutation (x :: l) (insert le x l).
Proof.
  induction l as [|y l IH]; simpl; [apply Permutation_refl|].
  destruct (le x y); [apply Permutation_refl|].
  eapply perm_trans; [apply perm_swap|]. apply perm_skip. exact IH.
Qed.

Lemma sort_perm (l : list A) : Permutation l (sort le l).
Proof.
  induction l as [|x l IH]; simpl; [constructor|].
  eapply perm_trans; [apply perm_skip; exact IH | apply insert_perm].
Qed.

Variable P : A -> Prop.
Hypothesis le_total : forall a b, P a -> P b -> le a b = false -> le b a = true.
Hypothesis le_trans :
  forall a b c, P a -> P b -> P c ->
    le a b = true -> le b c = true -> le a c = true.

Lemma insert_sorted (x : A) (l : list A) :
  P x -> Forall P l ->
  StronglySorted (fun a b => le a b = true) l ->
  StronglySorted (fun a b => le a b = true) (insert le x l).
Proof.
  intros Px Pl. induction 1 as [|y l Hs IH Hy]; simpl.
  - repeat constructor.
  - inversion Pl as [|? ? Py Pl']; subst.
    rewrite Forall_forall in Pl'.
    destruct (le x y) eqn:E.
    + constructor; [constructor; assumption|].
      constructor; [exact E|].
      rewrite Forall_forall in *. intros z Hz. eauto.
    + constructor; [apply IH; apply Forall_forall; exact Pl'|].
      rewrite Forall_forall in *. intros z Hz.
      apply (Permutation_in _ (Permutation_sym (insert_perm x l))) in Hz.
      destruct Hz as [<-|Hz]; auto.
Qed.

Lemma sort_sorted (l : list A) :
  Forall P l -> StronglySorted (fun a b => le a b = true) (sort le l).
Proof.
  induction 1 as [|x l Px Pl IH]; simpl; [constructor|].
  apply insert_sorted; [exact Px | | exact IH].
  apply Forall_forall. intros y Hy. rewrite Forall_forall in Pl. apply Pl.
  eapply Permutation_in; [apply Permutation_sym, sort_perm | exact Hy].
Qed.

End SortFacts.

Lemma sorted_nth (A : Type) (R : A -> A -> Prop) (l : list A) :
  StronglySorted R l ->
  forall i j a b, (i < j)%nat ->
    nth_error l i = Some a -> nth_error l j = Some b -> R a b.
Proof.
  induction 1 as [|x l Hs IH Hx]; intros i j a b Hij Hi Hj.
  - destruct i; discriminate.
  - destruct j as [|j]; [lia|]. simpl in Hj. destruct i as [|i].
    + simpl in Hi. injection Hi as <-.
      rewrite Forall_forall in Hx. apply Hx.
      eapply nth_error_In. exact Hj.
    + simpl in Hi. apply (IH i j); [lia | assumption | assumption].
Qed.

Lemma sort_default_sorted (l : list jsstring) :
  StronglySorted (fun a b => str_ltb b a = false) (sort_default l).
Proof.
  unfold sort_default.
  eapply StronglySorted_ind with
    (P := StronglySorted (fun a b => str_ltb b a = false));
    [constructor | | apply sort_sorted with (P := fun _ => True)].
  - intros a l' _ IH Ha. constructor; [exact IH|].
    eapply Forall_impl; [|exact Ha]. simpl. intros b Hb.
    apply negb_true_iff in Hb. exact Hb.
  - intros a b _ _ H. apply negb_false_iff in H.
    apply negb_true_iff. apply str_ltb_asym. exact H.
  - intros a b c _ _ _ H1 H2.
    apply negb_true_iff in H1. apply negb_true_iff in H2.
    apply negb_true_iff.
    destruct (str_ltb c a) eqn:E; [|reflexivity].
    destruct (str_ltb a b) eqn:E1.
    + rewrite (str_ltb_trans _ _ _ E E1) in H2. discriminate.
    + rewrite (str_ltb_total _ _ E1 H1) in E. congruence.
  - apply Forall_forall. intros; exact I.
Qed.

(** ** The binary search of [GET /contacts/:id] *)

Section Search.

Import MapServer.

Lemma index_some (l : list jsstring) (i : Z) :
  (0 <= i < Z.of_nat (List.length l))%Z -> exists x, index l i = Some x.
Proof.
  intros H. unfold index.
  destruct (Z.ltb_spec i 0); [lia|].
  destruct (nth_error l (Z.to_nat i)) eqn:E; [eauto|].
  apply nth_error_None in E. lia.
Qed.

Lemma index_sorted (l : list jsstring) (i j : Z) (a b : jsstring) :
  StronglySorted (fun a b => str_ltb b a = false) l ->
  (0 <= i <= j)%Z -> index l i = Some a -> index l j = Some b ->
  str_ltb b a = false.
Proof.
  intros Hs Hij. unfold index.
  destruct (Z.ltb_spec i 0); [lia|]. destruct (Z.ltb_spec j 0); [lia|].
  intros Hi Hj.
  destruct (Z.eq_dec i j) as [->|Hne].
  - rewrite Hi in Hj. injection Hj as <-. apply str_ltb_irrefl.
  - apply (sorted_nth Hs (i := Z.to_nat i) (j := Z.to_nat j)); [lia| |];
      assumption.
Qed.

Lemma middle_bounds (lo hi : Z) :
  (lo <= hi)%Z -> (lo <= middle lo hi <= hi)%Z.
Proof.
  intros H. unfold middle.
  assert (0 <= (hi - lo) / 2 <= hi - lo)%Z
    by (split; [apply Z.div_pos; lia | apply Z.div_le_upper_bound; lia]).
  lia.
Qed.

Lemma search_spec (sortedIds : list jsstring) (key : jsstring) (lo hi : Z) :
  StronglySorted (fun a b => str_ltb b a = false) sortedIds ->
  (0 <= lo)%Z -> (hi < Z.of_nat (List.length sortedIds))%Z ->
  search sortedIds key lo hi = true <->
  exists i, (lo <= i <= hi)%Z /\ index sortedIds i = Some key.
Proof.
  intros Hs. funelim (search sortedIds key lo hi); intros Hlo Hhi;
    try (pose proof (@middle_bounds lo hi ltac:(assumption)) as Hm).
  - (* the loop ends *)
    split; [discriminate|]. intros [i [Hi _]]. lia.
  - (* mid is inside the array *)
    destruct (index_some sortedIds (i := middle lo hi)) as [x Hx]; [lia|].
    congruence.
  - (* found at mid *)
    split; [intros _|reflexivity].
    match goal with E : str_eqb _ _ = true |- _ => apply str_eqb_eq in E end.
    subst x. exists (middle lo hi). split; assumption.
  - (* sortedIds[mid] < id *)
    match goal with IH : _ -> _ -> _ -> _ <-> _ |- _ =>
      rewrite IH by (assumption || lia) end.
    split; intros [i [Hi Hx]]; exists i; (split; [|exact Hx]); [lia|].
    destruct (Z_le_gt_dec i (middle lo hi)); [|lia].
    pose proof (index_sorted (i := i) (j := middle lo hi) Hs
                  ltac:(lia) Hx ltac:(eassumption)) as K.
    congruence.
  - (* id < sortedIds[mid] *)
    match goal with IH : _ -> _ -> _ -> _ <-> _ |- _ =>
      rewrite IH by (assumption || lia) end.
    split; intros [i [Hi Hx]]; exists i; (split; [|exact Hx]); [lia|].
    destruct (Z_le_gt_dec (middle lo hi) i); [|lia].
    pose proof (index_sorted (i := middle lo hi) (j := i) Hs
                  ltac:(lia) ltac:(eassumption) Hx) as K.
    match goal with E : str_eqb _ _ = false |- _ =>
      apply str_eqb_neq in E; elim E end.
    apply str_ltb_total; assumption.
Qed.

Lemma index_In (l : list jsstring) (id : jsstring) :
  In id l <->
  exists i, (0 <= i <= Z.of_nat (List.length l) - 1)%Z /\ index l i = Some id.
Proof.
  split.
  - intros H. apply In_nth_error in H. destruct H as [n Hn].
    exists (Z.of_nat n). unfold index.
    assert (n < List.length l)%nat by (apply nth_error_Some; congruence).
    destruct (Z.ltb_spec (Z.of_nat n) 0); [lia|].
    rewrite Nat2Z.id. split; [lia | exact Hn].
  - intros [i [_ Hi]]. unfold index in Hi.
    destruct (i <? 0)%Z; [discriminate|].
    eapply nth_error_In. exact Hi.
Qed.

Lemma search_finds_present (keys : list jsstring) (id : jsstring) :
  search (sort_default keys) id 0
    (Z.of_nat (List.length (sort_default keys)) - 1) = true
  <-> In id keys.
Proof.
  rewrite search_spec by (try apply sort_default_sorted; lia).
  rewrite <- index_In. unfold sort_default.
  split; intros H.
  - eapply Permutation_in; [apply Permutation_sym, sort_perm | exact H].
  - eapply Permutation_in; [apply sort_perm | exact H].
Qed.

End Search.

(** ** The Map *)

Section MapFacts.

Import MapServer.

Lemma Map_has_In (k : jsstring) (m : Map) :
  Map_has k m = true <-> In k (Map_keys m).
Proof.
  unfold Map_has. induction m as [|[k' v] m IH]; simpl.
  - split; [discriminate | tauto].
  - destruct (str_eqb k' k) eqn:E.
    + apply str_eqb_eq in E. split; auto.
    + apply str_eqb_neq in E. rewrite IH. split; [auto|].
      intros [H|H]; [contradiction | exact H].
Qed.

Lemma Map_get_In (k : jsstring) (c : contact) (m : Map) :
  Map_get k m = Some c -> In (k, c) m.
Proof.
  induction m as [|[k' v] m IH]; simpl; [discriminate|].
  destruct (str_eqb k' k) eqn:E.
  - apply str_eqb_eq in E. intros H. injection H as ->. left. congruence.
  - auto.
Qed.

Lemma Map_get_set (k : jsstring) (v : contact) (m : Map) :
  Map_get k (Map_set k v m) = Some v.
Proof.
  induction m as [|[k' v'] m IH]; simpl.
  - rewrite str_eqb_refl. reflexivity.
  - destruct (str_eqb k' k) eqn:E; simpl; rewrite E; [reflexivity | exact IH].
Qed.

Lemma MapFacts_get_set_key (k : jsstring) (v : contact) (m : Map) :
  Map_get k (Map_set k v m) = Some v /\ In k (Map_keys (Map_set k v m)).
Proof.
  split; [apply Map_get_set|].
  apply Map_has_In. unfold Map_has. rewrite Map_get_set. reflexivity.
Qed.

Lemma Map_get_set_other (k k' : jsstring) (v : contact) (m : Map) :
  k <> k' -> Map_get k' (Map_set k v m) = Map_get k' m.
Proof.
  intros Hne. induction m as [|[k0 v0] m IH]; simpl.
  - apply str_eqb_neq in Hne. rewrite Hne. reflexivity.
  - destruct (str_eqb k0 k) eqn:E; simpl.
    + apply str_eqb_eq in E. subst k0.
      apply str_eqb_neq in Hne. rewrite Hne. reflexivity.
    + rewrite IH. reflexivity.
Qed.

Lemma Map_keys_set (k : jsstring) (v : contact) (m : Map) :
  Map_keys (Map_set k v m) =
  if Map_has k m then Map_keys m else Map_keys m ++ [k].
Proof.
  unfold Map_has. induction m as [|[k' v'] m IH]; simpl; [reflexivity|].
  destruct (str_eqb k' k) eqn:E; simpl; [reflexivity|].
  rewrite IH. destruct (Map_get k m); reflexivity.
Qed.

Lemma Map_set_absent (k : jsstring) (v : contact) (m : Map) :
  Map_has k m = false -> Map_set k v m = m ++ [(k, v)].
Proof.
  unfold Map_has. induction m as [|[k' v'] m IH]; simpl; [reflexivity|].
  destruct (str_eqb k' k) eqn:E; [discriminate|].
  intros H. rewrite IH by exact H. reflexivity.
Qed.

Lemma Map_get_assign (k : jsstring) (f : contact -> contact) (m : Map) :
  Map_get k (Map_assign k f m) = option_map f (Map_get k m).
Proof.
  induction m as [|[k' v] m IH]; simpl; [reflexivity|].
  destruct (str_eqb k' k) eqn:E; simpl; rewrite E; [reflexivity | exact IH].
Qed.

Lemma Map_get_assign_other (k k' : jsstring) (f : contact -> contact)
  (m : Map) :
  k <> k' -> Map_get k' (Map_assign k f m) = Map_get k' m.
Proof.
  intros Hne. induction m as [|[k0 v0] m IH]; simpl; [reflexivity|].
  destruct (str_eqb k0 k) eqn:E; simpl.
  - apply str_eqb_eq in E. subst k0.
    apply str_eqb_neq in Hne. rewrite Hne. reflexivity.
  - rewrite IH. reflexivity.
Qed.

Lemma Map_keys_assign (k : jsstring) (f : contact -> contact) (m : Map) :
  Map_keys (Map_assign k f m) = Map_keys m.
Proof.
  induction m as [|[k' v] m IH]; simpl; [reflexivity|].
  destruct (str_eqb k' k); simpl; [reflexivity | rewrite IH; reflexivity].
Qed.

Lemma Map_has_assign (k k' : jsstring) (f : contact -> contact) (m : Map) :
  Map_has k' (Map_assign k f m) = Map_has k' m.
Proof.
  destruct (Map_has k' m) eqn:E.
  - apply Map_has_In. rewrite Map_keys_assign. apply Map_has_In. exact E.
  - destruct (Map_has k' (Map_assign k f m)) eqn:E'; [|reflexivity].
    apply Map_has_In in E'. rewrite Map_keys_assign in E'.
    apply Map_has_In in E'. congruence.
Qed.

Lemma Map_wf_set (k : jsstring) (v : contact) (m : Map) :
  Http.id v = Some k -> Map_wf m -> Map_wf (Map_set k v m).
Proof.
  intros Hid [Hnd Hall]. split.
  - rewrite Map_keys_set. destruct (Map_has k m) eqn:E; [exact Hnd|].
    apply NoDup_app; [exact Hnd | repeat constructor; auto | ].
    intros x Hx [<-|[]]. apply Map_has_In in Hx. congruence.
  - clear Hnd. induction m as [|[k' v'] m IH]; simpl.
    + repeat constructor. exact Hid.
    + inversion Hall; subst. destruct (str_eqb k' k) eqn:E.
      * apply str_eqb_eq in E. subst k'. constructor; assumption.
      * constructor; auto.
Qed.

Lemma Map_wf_assign (k : jsstring) (f : contact -> contact) (m : Map) :
  (forall c, Http.id (f c) = Http.id c) -> Map_wf m ->
  Map_wf (Map_assign k f m).
Proof.
  intros Hf [Hnd Hall]. split; [rewrite Map_keys_assign; exact Hnd|].
  clear Hnd. induction m as [|[k' v'] m IH]; simpl; [constructor|].
  inversion Hall; subst. destruct (str_eqb k' k).
  - constructor; [simpl in *; rewrite Hf; assumption | assumption].
  - constructor; auto.
Qed.

Lemma Map_wf_delete (k : jsstring) (m : Map) :
  Map_wf m -> Map_wf (Map_delete k m).
Proof.
  intros [Hnd Hall]. unfold Map_delete. split.
  - unfold Map_keys in *. induction m as [|[k' v'] m IH]; simpl; [constructor|].
    inversion Hnd; subst. inversion Hall; subst.
    destruct (str_eqb k' k); simpl; [auto|].
    constructor; [|auto].
    intros Hin. apply in_map_iff in Hin. destruct Hin as [e [He Hin]].
    apply filter_In in Hin. destruct Hin as [Hin _].
    match goal with H : ~ In _ _ |- _ => apply H end.
    apply in_map_iff. exists e. auto.
  - apply Forall_forall. intros e He. apply filter_In in He.
    rewrite Forall_forall in Hall. apply Hall. tauto.
Qed.

End MapFacts.

(** ** Validation *)

Section Validation.

Lemma Map_validateId_state (v : field) (b : bool) (s : MapServer.Map) :
  snd (MapServer.validateId v b s) = s.
Proof.
  unfold MapServer.validateId. run.
  destruct v as [x|]; [|reflexivity].
  destruct (blank (Some x)); [reflexivity|].
  destruct (10 <? List.length (trim x))%nat; [reflexivity|].
  destruct b; reflexivity.
Qed.

Lemma Map_validateContact_state (c : contact) (b : bool) (s : MapServer.Map) :
  snd (MapServer.validateContact c b s) = s.
Proof.
  unfold MapServer.validateContact. run.
  pose proof (Map_validateId_state (Http.id c) b s) as H.
  destruct (MapServer.validateId (Http.id c) b s) as [e s']. exact H.
Qed.

Lemma Array_validateId_state (v : field) (b : bool) (s : list contact) :
  snd (ArrayServer.validateId v b s) = s.
Proof.
  unfold ArrayServer.validateId. run.
  destruct v as [x|]; [|reflexivity].
  destruct (blank (Some x)); [reflexivity|].
  destruct (10 <? List.length (trim x))%nat; [reflexivity|].
  destruct b; reflexivity.
Qed.

Lemma Array_validateContact_state (c : contact) (b : bool)
  (s : list contact) :
  snd (ArrayServer.validateContact c b s) = s.
Proof.
  unfold ArrayServer.validateContact. run.
  pose proof (Array_validateId_state (Http.id c) b s) as H.
  destruct (ArrayServer.validateId (Http.id c) b s) as [e s']. exact H.
Qed.

(** The report has no entry exactly when no rule fails. *)
Lemma Map_no_errors (c : contact) (b : bool) (s : MapServer.Map) :
  has_errors (fst (MapServer.validateContact c b s)) = false <->
  record_ok c = true /\
  (b = true ->
   exists k, Http.id c = Some k /\ MapServer.Map_has (trim k) s = false).
Proof.
  unfold MapServer.validateContact, MapServer.validateId, record_ok. run.
  destruct (Http.id c) as [x|].
  - destruct (blank (Some x)).
    + split_fields c; cbn; (split; [discriminate | intros [H _]; discriminate]).
    + destruct (Nat.ltb_spec 10 (List.length (trim x))) as [L|L];
        destruct (Nat.leb_spec (List.length (trim x)) 10) as [L'|L'];
        try lia.
      * split_fields c; cbn;
          (split; [discriminate | intros [H _]; discriminate]).
      * destruct b.
        -- destruct (MapServer.Map_has (trim x) s) eqn:E;
             split_fields c; cbn;
             (split;
              [ first [ discriminate
                      | intros _; split; [reflexivity|];
                        intros _; exists x; split; [reflexivity | exact E] ]
              | intros [H K];
                first [ discriminate | reflexivity
                      | destruct (K eq_refl) as [k [Hk Hh]];
                        injection Hk as <-; congruence ] ]).
        -- split_fields c; cbn;
             (split;
              [ first [ discriminate
                      | intros _; split; [reflexivity | discriminate] ]
              | intros [H K]; first [ discriminate | reflexivity ] ]).
  - split_fields c; cbn; (split; [discriminate | intros [H _]; discriminate]).
Qed.

Lemma Array_no_errors (c : contact) (b : bool) (s : list contact) :
  has_errors (fst (ArrayServer.validateContact c b s)) = false <->
  record_ok c = true /\
  (b = true ->
   exists k, Http.id c = Some k /\
             find (ArrayServer.id_is (trim k)) s = None).
Proof.
  unfold ArrayServer.validateContact, ArrayServer.validateId, record_ok. run.
  destruct (Http.id c) as [x|].
  - destruct (blank (Some x)).
    + split_fields c; cbn; (split; [discriminate | intros [H _]; discriminate]).
    + destruct (Nat.ltb_spec 10 (List.length (trim x))) as [L|L];
        destruct (Nat.leb_spec (List.length (trim x)) 10) as [L'|L'];
        try lia.
      * split_fields c; cbn;
          (split; [discriminate | intros [H _]; discriminate]).
      * destruct b.
        -- destruct (find (ArrayServer.id_is (trim x)) s) eqn:E;
             split_fields c; cbn;
             (split;
              [ first [ discriminate
                      | intros _; split; [reflexivity|];
                        intros _; exists x; split; [reflexivity | exact E] ]
              | intros [H K];
                first [ discriminate | reflexivity
                      | destruct (K eq_refl) as [k [Hk Hh]];
                        injection Hk as <-; congruence ] ]).
        -- split_fields c; cbn;
             (split;
              [ first [ discriminate
                      | intros _; split; [reflexivity | discriminate] ]
              | intros [H K]; first [ discriminate | reflexivity ] ]).
  - split_fields c; cbn; (split; [discriminate | intros [H _]; discriminate]).
Qed.

Lemma contact_eta (c : contact) :
  mkContact (Http.id c) (firstName c) (lastName c) (phone c) (address c)
    (email c) = c.
Proof. destruct c. reflexivity. Qed.

(** What each handler returns, with the validation run factored out. *)

Lemma Map_post_run (body : contact) (s : MapServer.Map) :
  MapServer.post_contacts body s =
  let errors := fst (MapServer.validateContact body true s) in
  if has_errors errors
  then (mkResponse 400 (JValidation "Validation failed" errors), s)
  else (mkResponse 201 (JMessage "Contact added successfully"),
        match Http.id body with
        | Some key => MapServer.Map_set key body s
        | None => s
        end).
Proof.
  unfold MapServer.post_contacts. run.
  pose proof (Map_validateContact_state body true s) as H.
  destruct (MapServer.validateContact body true s) as [e s']. simpl in *.
  subst s'. destruct (has_errors e); [reflexivity|].
  rewrite contact_eta. destruct (Http.id body); reflexivity.
Qed.

Lemma Array_post_run (body : contact) (s : list contact) :
  ArrayServer.post_contacts body s =
  let errors := fst (ArrayServer.validateContact body true s) in
  if has_errors errors
  then (mkResponse 400 (JValidation "Validation failed" errors), s)
  else (mkResponse 201 (JMessage "Contact added successfully"), s ++ [body]).
Proof.
  unfold ArrayServer.post_contacts. run.
  pose proof (Array_validateContact_state body true s) as H.
  destruct (ArrayServer.validateContact body true s) as [e s']. simpl in *.
  subst s'. destruct (has_errors e); [reflexivity|].
  rewrite contact_eta. reflexivity.
Qed.

Lemma Array_put_run (id : jsstring) (body : contact) (s : list contact) :
  ArrayServer.put_contact id body s =
  let contactIndex := ArrayServer.findIndex (ArrayServer.id_is id) s in
  let errors := fst (ArrayServer.validateContact body false s) in
  if (contactIndex =? -1)%Z
  then (mkResponse 404 (JError "Contact not found"), s)
  else if has_errors errors
  then (mkResponse 400 (JValidation "Validation failed" errors), s)
  else (mkResponse 200 (JMessage "Contact updated successfully"),
        ArrayServer.assign_nth (Z.to_nat contactIndex)
          (mkContact (Some id) (firstName body) (lastName body)
             (phone body) (address body) (email body)) s).
Proof.
  unfold ArrayServer.put_contact. run. cbv zeta.
  destruct (ArrayServer.findIndex (ArrayServer.id_is id) s =? -1)%Z;
    [reflexivity|].
  pose proof (Array_validateContact_state body false s) as H.
  destruct (ArrayServer.validateContact body false s) as [e s']. simpl in *.
  subst s'. destruct (has_errors e); reflexivity.
Qed.

Lemma Map_assign_assign (k : jsstring) (f g : contact -> contact)
  (m : MapServer.Map) :
  MapServer.Map_assign k f (MapServer.Map_assign k g m) =
  MapServer.Map_assign k (fun c => f (g c)) m.
Proof.
  induction m as [|[k' v] m IH]; simpl; [reflexivity|].
  destruct (str_eqb k' k) eqn:E; simpl; rewrite E; [reflexivity|].
  rewrite IH. reflexivity.
Qed.

Lemma Map_assign_ext (k : jsstring) (f g : contact -> contact)
  (m : MapServer.Map) :
  (forall c, f c = g c) ->
  MapServer.Map_assign k f m = MapServer.Map_assign k g m.
Proof.
  intros H. induction m as [|[k' v] m IH]; simpl; [reflexivity|].
  rewrite IH, H. reflexivity.
Qed.

Lemma Map_assign_same (k : jsstring) (m : MapServer.Map) :
  MapServer.Map_assign k (fun c => c) m = m.
Proof.
  induction m as [|[k' v] m IH]; simpl; [reflexivity|].
  destruct (str_eqb k' k); [reflexivity | rewrite IH; reflexivity].
Qed.

(** The five conditional assignments, taken together. *)
Lemma Map_put_assignments (id : jsstring) (body : contact)
  (s : MapServer.Map) :
  let s1 := if truthy (firstName body)
            then MapServer.Map_assign id (set_firstName (firstName body)) s
            else s in
  let s2 := if truthy (lastName body)
            then MapServer.Map_assign id (set_lastName (lastName body)) s1
            else s1 in
  let s3 := if truthy (phone body)
            then MapServer.Map_assign id (set_phone (phone body)) s2
            else s2 in
  let s4 := if truthy (address body)
            then MapServer.Map_assign id (set_address (address body)) s3
            else s3 in
  let s5 := if truthy (email body)
            then MapServer.Map_assign id (set_email (email body)) s4
            else s4 in
  s5 = MapServer.Map_assign id (merged body) s.
Proof.
  unfold merged.
  destruct (truthy (firstName body)), (truthy (lastName body)),
    (truthy (phone body)), (truthy (address body)), (truthy (email body));
    cbv zeta; rewrite ?Map_assign_assign;
    first [ apply Map_assign_ext; intros c; reflexivity
          | symmetry; apply Map_assign_same ].
Qed.

Lemma when_modify (S A : Type) (b : bool) (f : S -> S) (k : M S A) (s : S) :
  bind (when b (modify f)) (fun _ => k) s = k (if b then f s else s).
Proof. destruct b; reflexivity. Qed.

Lemma Map_put_run (id : jsstring) (body : contact) (s : MapServer.Map) :
  MapServer.put_contact id body s =
  match MapServer.Map_get id s with
  | None => (mkResponse 404 (JError "Contact not found"), s)
  | Some c =>
      let s' := MapServer.Map_assign id (merged body) s in
      let errors := fst (MapServer.validateContact (merged body c) false s') in
      (if has_errors errors
       then mkResponse 400 (JValidation "Validation failed" errors)
       else mkResponse 200 (JMessage "Contact updated successfully"),
       s')
  end.
Proof.
  unfold MapServer.put_contact, MapServer.Map_has.
  unfold bind at 1. unfold gets at 1.
  destruct (MapServer.Map_get id s) as [c|] eqn:G; [|reflexivity].
  cbn [negb]. rewrite !when_modify.
  pose proof (Map_put_assignments id body s) as Hs. cbv zeta in Hs.
  rewrite Hs. clear Hs.
  unfold bind at 1. unfold gets at 1.
  rewrite Map_get_assign, G. cbn [option_map]. run.
  pose proof (Map_validateContact_state (merged body c) false
                (MapServer.Map_assign id (merged body) s)) as H.
  destruct (MapServer.validateContact (merged body c) false
              (MapServer.Map_assign id (merged body) s)) as [e s'].
  simpl in *. subst s'. destruct (has_errors e); reflexivity.
Qed.

Lemma Map_delete_run (id : jsstring) (s : MapServer.Map) :
  MapServer.delete_contact id s =
  (if MapServer.Map_has id s
   then mkResponse 200 (JMessage "Contact deleted successfully")
   else mkResponse 404 (JError "Contact not found"),
   MapServer.Map_delete id s).
Proof.
  unfold MapServer.delete_contact. run.
  destruct (MapServer.Map_has id s); reflexivity.
Qed.

End Validation.

(** ** Phone numbers *)

(** C6. Phone validation accepts a string exactly when at least ten digit
    characters remain once white space, hyphens and parentheses are
    stripped and the string itself matches the phone pattern.  The
    in-memory servers test both conditions; the MySQL-backed server tests
    the pattern alone, which has ten digits in each of its strings, so the
    same equivalence holds there. *)
Theorem phone_accepted_iff_digits_and_pattern (s : jsstring) :
  (validatePhone (Some s) = None <->
   (10 <= List.length (digitsOnly s))%nat /\ test phoneRegex s = true)
  /\ (SqlServer.validatePhone (Some s) = None <->
      (10 <= List.length (digitsOnly s))%nat /\ test phoneRegex s = true).
Proof.
  split; [apply validatePhone_accepts | apply sql_validatePhone_accepts].
Qed.

(** ** The validation report *)

Section Report.


(** The Map-backed server builds its report the same way. *)
Lemma Map_report_has_every_failing_field (c : contact) (isNewContact : bool)
  (contacts : MapServer.Map) :
  let errors := fst (MapServer.validateContact c isNewContact contacts) in
  get_prop "id" errors
    = fst (MapServer.validateId (Http.id c) isNewContact contacts)
  /\ get_prop "firstName" errors
    = (if blank (firstName c) then Some "First name is required" else None)
  /\ get_prop "lastName" errors
    = (if blank (lastName c) then Some "Last name is required" else None)
  /\ get_prop "email" errors = validateEmail (email c)
  /\ get_prop "phone" errors = validatePhone (phone c)
  /\ get_prop "address" errors = validateAddress (address c).
Proof.
  unfold MapServer.validateContact, bind, ret.
  destruct (MapServer.validateId (Http.id c) isNewContact contacts)
    as [[e|] s']; split_fields c; cbn; repeat split; reflexivity.
Qed.

Example report_of_empty_body :
  fst (ArrayServer.validateContact no_fields true []) =
  [ ("id", "ID is required"); ("firstName", "First name is required");
    ("lastName", "Last name is required"); ("email", "Email is required");
    ("phone", "Phone number is required") ].
Proof. reflexivity. Qed.

(** C8. Validation is a pure function of the candidate and of the store:
    run twice in a row it gives the same report twice, and it leaves the
    store as it found it. *)
Theorem validation_twice_same_report (c : contact) (isNewContact : bool)
  (map : MapServer.Map) (array : list contact) :
  (let (r1, s1) := MapServer.validateContact c isNewContact map in
   let (r2, s2) := MapServer.validateContact c isNewContact s1 in
   r1 = r2 /\ s1 = map /\ s2 = map)
  /\
  (let (r1, s1) := ArrayServer.validateContact c isNewContact array in
   let (r2, s2) := ArrayServer.validateContact c isNewContact s1 in
   r1 = r2 /\ s1 = array /\ s2 = array).
Proof.
  split.
  - pose proof (Map_validateContact_state c isNewContact map) as H.
    destruct (MapServer.validateContact c isNewContact map) as [r1 s1] eqn:E.
    simpl in H. subst s1. rewrite E. auto.
  - pose proof (Array_validateContact_state c isNewContact array) as H.
    destruct (ArrayServer.validateContact c isNewContact array)
      as [r1 s1] eqn:E.
    simpl in H. subst s1. rewrite E. auto.
Qed.

End Report.

(** ** Partial update in the Map-backed server *)

Section Merge.

Import MapServer.

Lemma merged_fields (body c : contact) :
  Http.id (merged body c) = Http.id c
  /\ firstName (merged body c)
     = (if truthy (firstName body) then firstName body else firstName c)
  /\ lastName (merged body c)
     = (if truthy (lastName body) then lastName body else lastName c)
  /\ phone (merged body c)
     = (if truthy (phone body) then phone body else phone c)
  /\ address (merged body c)
     = (if truthy (address body) then address body else address c)
  /\ email (merged body c)
     = (if truthy (email body) then email body else email c).
Proof.
  unfold merged.
  destruct (truthy (firstName body)), (truthy (lastName body)),
    (truthy (phone body)), (truthy (address body)), (truthy (email body));
    destruct c; cbn; repeat split; reflexivity.
Qed.

Lemma put_stores_merged (id : jsstring) (body c : contact) (s : Map) :
  Map_get id s = Some c ->
  Map_get id (snd (put_contact id body s)) = Some (merged body c).
Proof.
  intros G. rewrite Map_put_run, G. cbn [snd].
  rewrite Map_get_assign, G. reflexivity.
Qed.

(** C10. In the update of the Map-backed server a field that the payload
    leaves out or gives as the empty string keeps its stored value, so a
    field that was a non-empty string is a non-empty string after any
    update. *)
Theorem put_ignores_empty_fields (id : jsstring) (body c : contact)
  (contacts : Map) (Hstored : Map_get id contacts = Some c) :
  exists c', Map_get id (snd (put_contact id body contacts)) = Some c'
    /\ (falsy (firstName body) = true -> firstName c' = firstName c)
    /\ (falsy (lastName body) = true -> lastName c' = lastName c)
    /\ (falsy (phone body) = true -> phone c' = phone c)
    /\ (falsy (address body) = true -> address c' = address c)
    /\ (falsy (email body) = true -> email c' = email c)
    /\ (truthy (firstName c) = true -> truthy (firstName c') = true)
    /\ (truthy (lastName c) = true -> truthy (lastName c') = true)
    /\ (truthy (phone c) = true -> truthy (phone c') = true)
    /\ (truthy (address c) = true -> truthy (address c') = true)
    /\ (truthy (email c) = true -> truthy (email c') = true).
Proof.
  exists (merged body c). split; [apply put_stores_merged; exact Hstored|].
  destruct (merged_fields body c) as [_ [H1 [H2 [H3 [H4 H5]]]]].
  rewrite H1, H2, H3, H4, H5. unfold truthy.
  destruct (falsy (firstName body)) eqn:E1, (falsy (lastName body)) eqn:E2,
    (falsy (phone body)) eqn:E3, (falsy (address body)) eqn:E4,
    (falsy (email body)) eqn:E5; cbn [negb];
    rewrite ?E1, ?E2, ?E3, ?E4, ?E5; cbn [negb];
    repeat split; auto; discriminate.
Qed.

End Merge.

(** ** Lookup by id *)

Section Lookup.

Import MapServer.

Lemma Map_get_run (id : jsstring) (s : Map) :
  get_contact id s =
  (if Map_has id s
   then mkResponse 200 (JContact (Map_get id s))
   else mkResponse 404 (JError "Contact not found"),
   s).
Proof.
  unfold get_contact. run.
  pose proof (search_finds_present (Map_keys s) id) as H.
  rewrite <- Map_has_In in H.
  destruct (search (sort_default (Map_keys s)) id 0
              (Z.of_nat (List.length (sort_default (Map_keys s))) - 1));
    destruct (Map_has id s); try reflexivity.
  - destruct H as [H _]. specialize (H eq_refl). discriminate.
  - destruct H as [_ H]. specialize (H eq_refl). discriminate.
Qed.

Lemma Map_post_created (c : contact) (s s' : Map) (r : response) :
  post_contacts c s = (r, s') -> status r = 201%Z ->
  exists k, Http.id c = Some k /\ s' = Map_set k c s
            /\ record_ok c = true /\ Map_has (trim k) s = false.
Proof.
  rewrite Map_post_run. cbv zeta.
  destruct (has_errors (fst (validateContact c true s))) eqn:E;
    intros H; injection H as <- <-; simpl; [discriminate|]. intros _.
  apply Map_no_errors in E. destruct E as [Hok Hk].
  destruct (Hk eq_refl) as [k [Hid Hhas]].
  exists k. rewrite Hid. auto.
Qed.

(** C5. After a successful add of a candidate, the lookup of its id
    returns the record as it was given; the lookup of an id that is not in
    the store answers "not found"; and the binary search over the sorted
    key array finds an id exactly when it is a key of the store. *)
Theorem lookup_finds_exactly_the_stored (contacts : Map) :
  (forall c r contacts',
      post_contacts c contacts = (r, contacts') -> status r = 201%Z ->
      exists k, Http.id c = Some k
        /\ get_contact k contacts'
           = (mkResponse 200 (JContact (Some c)), contacts'))
  /\ (forall id, ~ In id (Map_keys contacts) ->
        get_contact id contacts
        = (mkResponse 404 (JError "Contact not found"), contacts))
  /\ (forall id,
        search (sort_default (Map_keys contacts)) id 0
          (Z.of_nat (List.length (sort_default (Map_keys contacts))) - 1)
        = true
        <-> In id (Map_keys contacts)).
Proof.
  split; [|split].
  - intros c r contacts' Hpost Hst.
    destruct (Map_post_created _ _ Hpost Hst) as [k [Hid [-> _]]].
    exists k. split; [exact Hid|].
    rewrite Map_get_run. unfold Map_has. rewrite Map_get_set. reflexivity.
  - intros id Hid. rewrite Map_get_run.
    destruct (Map_has id contacts) eqn:E; [|reflexivity].
    apply Map_has_In in E. contradiction.
  - intros id. apply search_finds_present.
Qed.

End Lookup.

(** ** The key of a new record *)

Section Keys.

Lemma blank_trim (x : jsstring) :
  blank (Some x) = falsy (Some (trim x)).
Proof.
  unfold blank. destruct x as [|c x]; reflexivity.
Qed.

Lemma Map_validateId_trim (x y : jsstring) (b : bool) (s : MapServer.Map) :
  trim x = trim y ->
  MapServer.validateId (Some x) b s = MapServer.validateId (Some y) b s.
Proof.
  intros H. unfold MapServer.validateId.
  rewrite !blank_trim, H. reflexivity.
Qed.

Lemma Array_validateId_trim (x y : jsstring) (b : bool) (s : list contact) :
  trim x = trim y ->
  ArrayServer.validateId (Some x) b s = ArrayServer.validateId (Some y) b s.
Proof.
  intros H. unfold ArrayServer.validateId.
  rewrite !blank_trim, H. reflexivity.
Qed.

Lemma Array_post_created (c : contact) (s s' : list contact) (r : response) :
  ArrayServer.post_contacts c s = (r, s') -> status r = 201%Z ->
  s' = s ++ [c] /\ record_ok c = true.
Proof.
  rewrite Array_post_run. cbv zeta.
  destruct (has_errors (fst (ArrayServer.validateContact c true s))) eqn:E;
    intros H; injection H as <- <-; simpl; [discriminate|]. intros _.
  apply Array_no_errors in E. tauto.
Qed.

(** C9. A successful add keeps the id of the candidate as it was sent,
    white space included, as the key of the record, while the rules on the
    id (presence, length, duplicate) only see the trimmed id.  So two
    candidates whose ids differ in surrounding white space can both be
    added (here " A1" and then "A1"), and the store then holds two records
    whose ids are the same once trimmed.  Stated for the Map-backed and for
    the array-backed server. *)
Theorem add_keeps_untrimmed_id :
  (forall c contacts r contacts',
      MapServer.post_contacts c contacts = (r, contacts') ->
      status r = 201%Z ->
      exists k, Http.id c = Some k
                /\ MapServer.Map_get k contacts' = Some c
                /\ In k (MapServer.Map_keys contacts'))
  /\ (forall x y isNewContact contacts,
         trim x = trim y ->
         MapServer.validateId (Some x) isNewContact contacts
         = MapServer.validateId (Some y) isNewContact contacts)
  /\ (status (fst (MapServer.post_contacts (sample " A1") [])) = 201%Z
      /\ status (fst (MapServer.post_contacts (sample "A1")
                        (map_after [sample " A1"]))) = 201%Z
      /\ map_after [sample " A1"; sample "A1"]
         = [(lit " A1", sample " A1"); (lit "A1", sample "A1")]
      /\ lit " A1" <> lit "A1"
      /\ trim (lit " A1") = trim (lit "A1"))
  /\ (forall c contacts r contacts',
         ArrayServer.post_contacts c contacts = (r, contacts') ->
         status r = 201%Z -> contacts' = contacts ++ [c])
  /\ (forall x y isNewContact contacts,
         trim x = trim y ->
         ArrayServer.validateId (Some x) isNewContact contacts
         = ArrayServer.validateId (Some y) isNewContact contacts)
  /\ (status (fst (ArrayServer.post_contacts (sample " A1") [])) = 201%Z
      /\ status (fst (ArrayServer.post_contacts (sample "A1")
                        (array_after [sample " A1"]))) = 201%Z
      /\ array_after [sample " A1"; sample "A1"]
         = [sample " A1"; sample "A1"]).
Proof.
  split; [|split; [|split; [|split; [|split]]]].
  - intros c contacts r contacts' Hpost Hst.
    destruct (Map_post_created _ _ Hpost Hst) as [k [Hid [-> _]]].
    exists k. split; [exact Hid|].
    pose proof (MapFacts_get_set_key k c contacts) as [H1 H2]. auto.
  - intros. apply Map_validateId_trim. assumption.
  - do 3 (split; [vm_compute; reflexivity|]).
    split; [intros H; vm_compute in H; discriminate | vm_compute; reflexivity].
  - intros c contacts r contacts' Hpost Hst.
    apply (Array_post_created _ _ Hpost Hst).
  - intros. apply Array_validateId_trim. assumption.
  - repeat split; vm_compute; reflexivity.
Qed.

End Keys.

(** ** Listing *)

Section Listing.

Import MapServer.

Lemma StronglySorted_impl (A : Type) (R R' : A -> A -> Prop) (l : list A) :
  (forall a b, R a b -> R' a b) -> StronglySorted R l -> StronglySorted R' l.
Proof.
  intros H. induction 1 as [|x l Hs IH Hx]; constructor; [exact IH|].
  eapply Forall_impl; [|exact Hx]. intros b. apply H.
Qed.

Lemma Map_wf_ids (contacts : Map) :
  Map_wf contacts -> ids (Map_values contacts) = map Some (Map_keys contacts).
Proof.
  intros [_ Hall]. unfold ids, Map_values, Map_keys.
  induction Hall as [|[k v] m Hv Hm IH]; simpl; [reflexivity|].
  simpl in Hv. rewrite Hv, IH. reflexivity.
Qed.

Lemma NoDup_map_Some (A : Type) (l : list A) :
  NoDup l -> NoDup (map Some l).
Proof.
  induction 1 as [|x l Hx Hl IH]; simpl; constructor; [|exact IH].
  intros Hin. apply in_map_iff in Hin. destruct Hin as [y [Hy Hin]].
  injection Hy as ->. contradiction.
Qed.

Lemma str_le_trans (a b c : jsstring) :
  str_ltb b a = false -> str_ltb c b = false -> str_ltb c a = false.
Proof.
  intros H1 H2. destruct (str_ltb c a) eqn:E; [|reflexivity].
  destruct (str_ltb a b) eqn:E1.
  - rewrite (str_ltb_trans _ _ _ E E1) in H2. discriminate.
  - rewrite (str_ltb_total _ _ E1 H1) in E. congruence.
Qed.

Lemma codeUnitCompare_le (a b : jsstring) :
  (codeUnitCompare a b <= 0)%Z <-> str_ltb b a = false.
Proof.
  unfold codeUnitCompare. destruct (str_ltb a b) eqn:E.
  - rewrite (str_ltb_asym _ _ E). split; [reflexivity | lia].
  - destruct (str_ltb b a); split; (lia || congruence).
Qed.

Lemma codeUnitCompare_anti (a b : jsstring) :
  (0 < codeUnitCompare a b)%Z -> (codeUnitCompare b a <= 0)%Z.
Proof.
  unfold codeUnitCompare.
  destruct (str_ltb a b) eqn:E, (str_ltb b a) eqn:E'; lia.
Qed.

Lemma codeUnitCompare_trans (a b c : jsstring) :
  (codeUnitCompare a b <= 0)%Z -> (codeUnitCompare b c <= 0)%Z ->
  (codeUnitCompare a c <= 0)%Z.
Proof.
  rewrite !codeUnitCompare_le. apply str_le_trans.
Qed.

(** Every handler keeps the keys distinct and each contact under its own
    id, so every store the server reaches from the empty Map is of that
    form. *)
Lemma Map_wf_handlers (id : jsstring) (body : contact)
  (parts : list jsstring) (s : Map) :
  Map_wf s ->
  Map_wf (snd (post_contacts body s))
  /\ Map_wf (snd (put_contact id body s))
  /\ Map_wf (snd (delete_contact id s))
  /\ Map_wf (snd (loadLine parts s)).
Proof.
  intros Hs. split; [|split; [|split]].
  - rewrite Map_post_run. cbv zeta.
    destruct (has_errors (fst (validateContact body true s))); [exact Hs|].
    cbn [snd]. destruct (Http.id body) as [k|] eqn:E; [|exact Hs].
    apply Map_wf_set; assumption.
  - rewrite Map_put_run. destruct (Map_get id s) as [stored|]; [|exact Hs].
    cbv zeta. cbn [snd]. apply Map_wf_assign; [|exact Hs].
    intros c. apply merged_fields.
  - rewrite Map_delete_run. cbn [snd]. apply Map_wf_delete. exact Hs.
  - unfold loadLine.
    destruct parts as [|p1 [|p2 [|p3 [|p4 [|p5 [|p6 [|p7 parts]]]]]]];
      try exact Hs.
    run.
    match goal with
    | |- context [validateContact ?c true s] =>
        pose proof (Map_validateContact_state c true s) as H;
        destruct (validateContact c true s) as [e s']
    end.
    simpl in H. subst s'.
    destruct (List.length (keys e) =? 0)%nat; [|exact Hs].
    cbn [snd]. apply Map_wf_set; [reflexivity | exact Hs].
Qed.

Lemma Map_wf_empty : Map_wf [].
Proof. split; constructor. Qed.

(** C2, as the code has it.  In the Map-backed server the listing is the
    stored contacts, each once, in ascending order of id for the order that
    [localeCompare] defines, the ids being pairwise distinct; the store is
    left as it was.  [localeCompare] is the host's collation, taken here as
    any consistent comparison. *)
Theorem map_listing_sorted (localeCompare : jsstring -> jsstring -> Z)
  (Hanti : forall a b,
      (0 < localeCompare a b)%Z -> (localeCompare b a <= 0)%Z)
  (Htrans : forall a b c,
      (localeCompare a b <= 0)%Z -> (localeCompare b c <= 0)%Z ->
      (localeCompare a c <= 0)%Z)
  (contacts : Map) (Hwf : Map_wf contacts) :
  exists l,
    get_contacts localeCompare contacts
    = (mkResponse 200 (JContacts l), contacts)
    /\ Permutation (Map_values contacts) l
    /\ StronglySorted
         (fun a b => (compare_id localeCompare a b <= 0)%Z) l
    /\ NoDup (ids l).
Proof.
  exists (sort (fun a b => (compare_id localeCompare a b <=? 0)%Z)
            (Map_values contacts)).
  split; [reflexivity|]. split; [apply sort_perm|]. split.
  - eapply StronglySorted_impl;
      [| apply sort_sorted with (P := fun c => exists k, Http.id c = Some k)].
    + intros a b H. apply Z.leb_le. exact H.
    + intros a b [x Hx] [y Hy] H. apply Z.leb_gt in H. apply Z.leb_le.
      unfold compare_id in *. rewrite Hx, Hy in *. apply Hanti. exact H.
    + intros a b c [x Hx] [y Hy] [z Hz] H1 H2.
      apply Z.leb_le in H1. apply Z.leb_le in H2. apply Z.leb_le.
      unfold compare_id in *. rewrite Hx, Hy, Hz in *. eapply Htrans; eauto.
    + destruct Hwf as [_ Hall]. unfold Map_values.
      apply Forall_forall. intros c Hc. apply in_map_iff in Hc.
      destruct Hc as [e [<- He]]. rewrite Forall_forall in Hall.
      exists (fst e). apply Hall. exact He.
  - eapply Permutation_NoDup.
    + apply Permutation_map. apply sort_perm.
    + fold (ids (Map_values contacts)). rewrite (Map_wf_ids Hwf).
      apply NoDup_map_Some. apply Hwf.
Qed.

Lemma map_after_B2_A1_C3_wf :
  Map_wf (map_after [sample "B2"; sample "A1"; sample "C3"]).
Proof.
  split.
  - vm_compute. repeat constructor; simpl; intuition discriminate.
  - vm_compute. repeat constructor.
Qed.

Lemma map_listing_sorted_witness :
  fst (get_contacts codeUnitCompare
         (map_after [sample "B2"; sample "A1"; sample "C3"]))
  = mkResponse 200 (JContacts [sample "A1"; sample "B2"; sample "C3"])
  /\ exists l,
      get_contacts codeUnitCompare
        (map_after [sample "B2"; sample "A1"; sample "C3"])
      = (mkResponse 200 (JContacts l),
         map_after [sample "B2"; sample "A1"; sample "C3"])
      /\ Permutation
           (Map_values (map_after [sample "B2"; sample "A1"; sample "C3"])) l
      /\ StronglySorted
           (fun a b => (compare_id codeUnitCompare a b <= 0)%Z) l
      /\ NoDup (ids l).
Proof.
  split; [vm_compute; reflexivity|].
  exact (map_listing_sorted codeUnitCompare codeUnitCompare_anti
           codeUnitCompare_trans map_after_B2_A1_C3_wf).
Defined.

(** The array-backed server lists the contacts in the order they were
    added: after adding "B2" and then "A1" the listing is not ascending. *)
Lemma array_listing_unsorted :
  listed (fst (ArrayServer.get_contacts
                 (array_after [sample "B2"; sample "A1"])))
  = [sample "B2"; sample "A1"]
  /\ ~ ascending
       (ids (listed (fst (ArrayServer.get_contacts
                            (array_after [sample "B2"; sample "A1"]))))).
Proof.
  split; [vm_compute; reflexivity|].
  intros H. vm_compute in H. inversion H as [|a l Hs Hall]; subst.
  inversion Hall as [|b l' Hlt _]; subst. discriminate.
Qed.

End Listing.

(** ** Updates and the stored records *)

Section Stored.

Import MapServer.

(** An update of an id that is not a key answers 404 and changes nothing,
    in both servers. *)
Lemma Map_put_not_found (id : jsstring) (body : contact) (s : Map) :
  Map_has id s = false ->
  put_contact id body s = (mkResponse 404 (JError "Contact not found"), s).
Proof.
  unfold Map_has. intros H. rewrite Map_put_run.
  destruct (Map_get id s); [discriminate | reflexivity].
Qed.

(** The array-backed server validates the payload before it writes: an
    update that does not succeed leaves the array as it was. *)
Lemma Array_put_atomic (id : jsstring) (body : contact) (s : list contact) :
  status (fst (ArrayServer.put_contact id body s)) <> 200%Z ->
  snd (ArrayServer.put_contact id body s) = s.
Proof.
  rewrite Array_put_run. cbv zeta.
  destruct (ArrayServer.findIndex (ArrayServer.id_is id) s =? -1)%Z;
    [reflexivity|].
  destruct (has_errors (fst (ArrayServer.validateContact body false s)));
    [reflexivity|].
  simpl. intros H. contradiction H. reflexivity.
Qed.

Lemma Map_post_rejected_unchanged (c : contact) (s : Map) :
  status (fst (post_contacts c s)) <> 201%Z -> snd (post_contacts c s) = s.
Proof.
  rewrite Map_post_run. cbv zeta.
  destruct (has_errors (fst (validateContact c true s))); [reflexivity|].
  simpl. intros H. contradiction H. reflexivity.
Qed.

(** An add whose id is a key of the store, when that key has no
    surrounding white space, is rejected and changes nothing. *)
Lemma Map_post_duplicate (c : contact) (k : jsstring) (s : Map) :
  Http.id c = Some k -> trim k = k -> In k (Map_keys s) ->
  status (fst (post_contacts c s)) = 400%Z /\ snd (post_contacts c s) = s.
Proof.
  intros Hid Htrim Hin. rewrite Map_post_run. cbv zeta.
  destruct (has_errors (fst (validateContact c true s))) eqn:E;
    [split; reflexivity|].
  apply Map_no_errors in E. destruct E as [_ E].
  destruct (E eq_refl) as [k' [Hk' Hhas]].
  rewrite Hid in Hk'. injection Hk' as <-. rewrite Htrim in Hhas.
  apply Map_has_In in Hin. congruence.
Qed.

(** Adds, deletes and successful updates keep every stored record
    valid. *)
Lemma Map_valid_set (k : jsstring) (c : contact) (s : Map) :
  record_ok c = true -> Map_valid s -> Map_valid (Map_set k c s).
Proof.
  intros Hc. unfold Map_valid. induction 1 as [|[k' v] m Hv Hm IH]; simpl.
  - repeat constructor. exact Hc.
  - destruct (str_eqb k' k); constructor; auto.
Qed.

Lemma Map_post_valid (c : contact) (s : Map) :
  Map_valid s -> Map_valid (snd (post_contacts c s)).
Proof.
  intros Hs. rewrite Map_post_run. cbv zeta.
  destruct (has_errors (fst (validateContact c true s))) eqn:E; [exact Hs|].
  apply Map_no_errors in E. destruct E as [Hok _]. simpl.
  destruct (Http.id c); [apply Map_valid_set; assumption | exact Hs].
Qed.

Lemma Map_delete_valid (id : jsstring) (s : Map) :
  Map_valid s -> Map_valid (snd (delete_contact id s)).
Proof.
  intros Hs. rewrite Map_delete_run. simpl. unfold Map_valid, Map_delete.
  apply Forall_forall. intros e He. apply filter_In in He.
  unfold Map_valid in Hs. rewrite Forall_forall in Hs. apply Hs. tauto.
Qed.

Lemma Map_valid_assign (k : jsstring) (f : contact -> contact) (s : Map) :
  (forall c, Map_get k s = Some c -> record_ok (f c) = true) ->
  Map_valid s -> Map_valid (Map_assign k f s).
Proof.
  unfold Map_valid. intros Hf Hs. revert Hf.
  induction Hs as [|[k' v] m Hv Hm IH]; simpl; intros Hf; [constructor|].
  destruct (str_eqb k' k) eqn:E.
  - constructor; [apply Hf; reflexivity | exact Hm].
  - constructor; [exact Hv | apply IH; exact Hf].
Qed.

Lemma Map_put_ok_valid (id : jsstring) (body : contact) (s : Map) :
  status (fst (put_contact id body s)) = 200%Z ->
  Map_valid s -> Map_valid (snd (put_contact id body s)).
Proof.
  rewrite Map_put_run.
  destruct (Map_get id s) as [c|] eqn:G; [|intros _ Hs; exact Hs].
  cbv zeta. cbn [fst snd].
  destruct (has_errors
              (fst (validateContact (merged body c) false
                      (Map_assign id (merged body) s)))) eqn:E;
    [discriminate|].
  intros _ Hs. apply Map_no_errors in E. destruct E as [Hok _].
  apply Map_valid_assign; [|exact Hs].
  intros c' Hc'. congruence.
Qed.

Lemma record_ok_id (a b : contact) :
  record_ok a = true -> record_ok b = true ->
  record_ok (mkContact (Http.id a) (firstName b) (lastName b) (phone b)
               (address b) (email b)) = true.
Proof.
  unfold record_ok. cbn [Http.id firstName lastName phone address email].
  intros Ha Hb. repeat (apply andb_true_iff in Ha; destruct Ha as [Ha ?]).
  repeat (apply andb_true_iff in Hb; destruct Hb as [Hb ?]).
  repeat (apply andb_true_iff; split); assumption.
Qed.

Lemma Array_findIndex_some (id : jsstring) (s : list contact) :
  ArrayServer.findIndex (ArrayServer.id_is id) s <> (-1)%Z ->
  exists c, nth_error s
              (Z.to_nat (ArrayServer.findIndex (ArrayServer.id_is id) s))
            = Some c
            /\ Http.id c = Some id
            /\ (0 <= ArrayServer.findIndex (ArrayServer.id_is id) s)%Z.
Proof.
  induction s as [|c s IH]; simpl; [intros H; contradiction H; reflexivity|].
  destruct (ArrayServer.id_is id c) eqn:E.
  - intros _. exists c. split; [reflexivity|]. split; [|lia].
    unfold ArrayServer.id_is in E. destruct (Http.id c); [|discriminate].
    apply str_eqb_eq in E. congruence.
  - destruct (Z.eqb_spec (ArrayServer.findIndex (ArrayServer.id_is id) s)
                (-1)) as [H1|H1]; [intros H; contradiction H; reflexivity|].
    intros _. destruct (IH H1) as [c' [Hn [Hid Hpos]]].
    exists c'. split; [|split; [exact Hid | lia]].
    rewrite Z2Nat.inj_add by lia. rewrite Nat.add_comm. exact Hn.
Qed.

Lemma Array_valid_assign (i : nat) (c : contact) (s : list contact) :
  record_ok c = true -> Array_valid s ->
  Array_valid (ArrayServer.assign_nth i c s).
Proof.
  intros Hc Hs. revert i. unfold Array_valid in *.
  induction Hs as [|x l Hx Hl IH]; intros i; destruct i; simpl;
    constructor; auto.
Qed.

Lemma Array_handlers_valid (id : jsstring) (body : contact)
  (s : list contact) :
  Array_valid s ->
  Array_valid (snd (ArrayServer.post_contacts body s))
  /\ Array_valid (snd (ArrayServer.put_contact id body s))
  /\ Array_valid (snd (ArrayServer.delete_contact id s)).
Proof.
  intros Hs. split; [|split].
  - rewrite Array_post_run. cbv zeta.
    destruct (has_errors (fst (ArrayServer.validateContact body true s)))
      eqn:E; [exact Hs|].
    apply Array_no_errors in E. destruct E as [Hok _]. simpl.
    apply Forall_app. split; [exact Hs | repeat constructor; exact Hok].
  - rewrite Array_put_run. cbv zeta.
    destruct (Z.eqb_spec (ArrayServer.findIndex (ArrayServer.id_is id) s)
                (-1)) as [H1|H1]; [exact Hs|].
    destruct (has_errors (fst (ArrayServer.validateContact body false s)))
      eqn:E; [exact Hs|].
    apply Array_no_errors in E. destruct E as [Hok _]. cbn [snd].
    destruct (Array_findIndex_some id s H1) as [c [Hn [Hid _]]].
    apply Array_valid_assign; [|exact Hs].
    rewrite <- Hid. apply record_ok_id; [|exact Hok].
    unfold Array_valid in Hs. rewrite Forall_forall in Hs. apply Hs.
    eapply nth_error_In. exact Hn.
  - unfold ArrayServer.delete_contact. run.
    match goal with
    | |- context [(?a =? ?b)%nat] => destruct (a =? b)%nat
    end; cbn [snd]; unfold Array_valid in *; apply Forall_forall;
      intros e He; apply filter_In in He; rewrite Forall_forall in Hs;
      apply Hs; tauto.
Qed.

Lemma map_put_writes_before_validating_run :
  put_contact (lit "A1") (phone_only "bad") (map_after [sample "A1"])
  = (mkResponse 400
       (JValidation "Validation failed"
          [("phone", "Phone number must have at least 10 digits")]),
     [(lit "A1", set_phone (Some (lit "bad")) (sample "A1"))])
  /\ record_ok (set_phone (Some (lit "bad")) (sample "A1")) = false.
Proof. split; vm_compute; reflexivity. Qed.

(** C1, at the failing input.  In the Map-backed server the update of
    "A1" with the phone number "bad" answers 400 with the phone error, and
    the record stored under "A1" now has the phone number "bad": the
    assignments are made to the stored object before it is validated. *)
Theorem map_put_writes_before_validating :
  put_contact (lit "A1") (phone_only "bad") (map_after [sample "A1"])
  = (mkResponse 400
       (JValidation "Validation failed"
          [("phone", "Phone number must have at least 10 digits")]),
     [(lit "A1", set_phone (Some (lit "bad")) (sample "A1"))])
  /\ Map_get (lit "A1") (map_after [sample "A1"]) = Some (sample "A1")
  /\ sample "A1" <> set_phone (Some (lit "bad")) (sample "A1").
Proof.
  split; [apply map_put_writes_before_validating_run|].
  split; [vm_compute; reflexivity|].
  intros H. apply (f_equal phone) in H. vm_compute in H. discriminate.
Qed.

(** C3, at the failing input.  Every record of the store passes the field
    rules before the rejected update of C1, and the record under "A1" does
    not pass them after it. *)
Theorem map_put_leaves_invalid_record :
  Map_valid (map_after [sample "A1"])
  /\ status (fst (put_contact (lit "A1") (phone_only "bad")
                    (map_after [sample "A1"]))) = 400%Z
  /\ ~ Map_valid (snd (put_contact (lit "A1") (phone_only "bad")
                         (map_after [sample "A1"]))).
Proof.
  assert (E : map_after [sample "A1"] = [(lit "A1", sample "A1")])
    by (vm_compute; reflexivity).
  destruct map_put_writes_before_validating_run as [R Hbad].
  rewrite R, E. split; [|split; [reflexivity|]].
  - constructor; [vm_compute; reflexivity | constructor].
  - intros H. inversion H as [|e l He _]; subst.
    cbn [snd] in He. rewrite Hbad in He. discriminate.
Qed.

(** C4, at the failing input.  The store holds a contact whose id is
    " A1"; a second add with the id " A1" answers 201 and replaces the
    stored record: the duplicate check looks for the trimmed id "A1",
    which is not a key. *)
Theorem map_post_overwrites_padded_id :
  Map_get (lit " A1") (map_after [sample " A1"]) = Some (sample " A1")
  /\ post_contacts (set_firstName (Some (lit "Zed")) (sample " A1"))
       (map_after [sample " A1"])
     = (mkResponse 201 (JMessage "Contact added successfully"),
        [(lit " A1", set_firstName (Some (lit "Zed")) (sample " A1"))]).
Proof.
  split; vm_compute; reflexivity.
Qed.

(** The same two requests on the array-backed server store two records
    with the id " A1". *)
Lemma array_post_duplicates_padded_id :
  array_after [sample " A1"; set_firstName (Some (lit "Zed")) (sample " A1")]
  = [sample " A1"; set_firstName (Some (lit "Zed")) (sample " A1")].
Proof. vm_compute. reflexivity. Qed.

End Stored.

(** ** The properties at sample requests *)

Section Samples.

Import MapServer.

Lemma lookup_finds_exactly_the_stored_witness :
  get_contact (lit "A1") (snd (post_contacts (sample "A1") []))
  = (mkResponse 200 (JContact (Some (sample "A1"))),
     snd (post_contacts (sample "A1") []))
  /\ get_contact (lit "Z9") []
     = (mkResponse 404 (JError "Contact not found"), []).
Proof.
  destruct (lookup_finds_exactly_the_stored []) as [Hadd [Habsent _]].
  split.
  - destruct (Hadd (sample "A1") _ _
                (surjective_pairing (post_contacts (sample "A1") []))
                ltac:(vm_compute; reflexivity)) as [k [Hk Hget]].
    cbv in Hk. injection Hk as <-. exact Hget.
  - apply Habsent. simpl. tauto.
Defined.

Lemma put_ignores_empty_fields_witness :
  exists c',
    Map_get (lit "A1")
      (snd (put_contact (lit "A1") (phone_only "") (map_after [sample "A1"])))
    = Some c'
    /\ phone c' = phone (sample "A1")
    /\ truthy (email c') = true.
Proof.
  destruct (@put_ignores_empty_fields (lit "A1") (phone_only "")
              (sample "A1") (map_after [sample "A1"])
              ltac:(vm_compute; reflexivity))
    as [c' [Hget [_ [_ [Hphone [_ [_ [_ [_ [_ [_ Hemail]]]]]]]]]]].
  exists c'. split; [exact Hget|].
  split; [apply Hphone; reflexivity | apply Hemail; reflexivity].
Defined.

Lemma add_keeps_untrimmed_id_witness :
  exists k,
    Http.id (sample " A1") = Some k
    /\ Map_get k (snd (post_contacts (sample " A1") [])) = Some (sample " A1")
    /\ In k (Map_keys (snd (post_contacts (sample " A1") []))).
Proof.
  destruct add_keeps_untrimmed_id as [Hkey _].
  exact (Hkey (sample " A1") [] _ _
           (surjective_pairing (post_contacts (sample " A1") []))
           ltac:(vm_compute; reflexivity)).
Defined.

(** The patterns and [trim] on literals. *)
Example email_ok : test emailRegex (lit "jo@x.com") = true.
Proof. vm_compute. reflexivity. Qed.

Example email_without_dot : test emailRegex (lit "jo@x") = false.
Proof. vm_compute. reflexivity. Qed.

Example phone_plain : test phoneRegex (lit "555-123-4567") = true.
Proof. vm_compute. reflexivity. Qed.

Example phone_with_country : test phoneRegex (lit "+1-555-123-4567") = true.
Proof. vm_compute. reflexivity. Qed.

Example phone_with_parentheses : test phoneRegex (lit "(555) 123-4567") = true.
Proof. vm_compute. reflexivity. Qed.

Example phone_bad : validatePhone (Some (lit "bad"))
  = Some "Phone number must have at least 10 digits".
Proof. vm_compute. reflexivity. Qed.

Example trim_both_ends : trim (lit "  A1 ") = lit "A1".
Proof. vm_compute. reflexivity. Qed.

(** The run of requests of the specification on the Map-backed server. *)
Example add_then_add_again :
  fst (post_contacts (sample "A1") [])
  = mkResponse 201 (JMessage "Contact added successfully")
  /\ post_contacts (sample "A1") (map_after [sample "A1"])
     = (mkResponse 400
          (JValidation "Validation failed" [("id", "ID already exists")]),
        map_after [sample "A1"]).
Proof. split; vm_compute; reflexivity. Qed.

Example delete_then_get :
  delete_contact (lit "A1") (map_after [sample "A1"])
  = (mkResponse 200 (JMessage "Contact deleted successfully"), [])
  /\ fst (delete_contact (lit "A1") [])
     = mkResponse 404 (JError "Contact not found")
  /\ fst (get_contact (lit "A1") [])
     = mkResponse 404 (JError "Contact not found").
Proof. repeat split; vm_compute; reflexivity. Qed.

Example load_line_trims :
  loadLine [lit " A1 "; lit "Jo"; lit "Li"; lit "555-123-4567"; lit "";
            lit "jo@x.com"] []
  = (tt, [(lit "A1",
           mkContact (Some (lit "A1")) (Some (lit "Jo")) (Some (lit "Li"))
             (Some (lit "555-123-4567")) (Some []) (Some (lit "jo@x.com")))]).
Proof. vm_compute. reflexivity. Qed.

End Samples.

(** ** Further properties of the Map-backed server *)

Section MapMore.

Import MapServer.

Lemma trimStart_fixed (s : jsstring) :
  match s with [] => True | c :: _ => is_space c = false end ->
  trimStart s = s.
Proof.
  destruct s as [|c s]; simpl; [reflexivity|]. intros ->. reflexivity.
Qed.

Lemma trimStart_head (s : jsstring) :
  match trimStart s with [] => True | c :: _ => is_space c = false end.
Proof.
  induction s as [|c s IH]; simpl; [exact I|].
  destruct (is_space c) eqn:E; [exact IH | exact E].
Qed.

Lemma trimEnd_head (s : jsstring) :
  match s with [] => True | c :: _ => is_space c = false end ->
  match trimEnd s with [] => True | c :: _ => is_space c = false end.
Proof.
  unfold trimEnd. intros Hs.
  destruct (trimStart_suffix (rev s)) as [p [Hp Hsp]].
  apply (f_equal (@rev N)) in Hp. rewrite rev_involutive, rev_app_distr in Hp.
  destruct (rev (trimStart (rev s))) as [|c u]; [exact I|].
  rewrite Hp in Hs. simpl in Hs. exact Hs.
Qed.

Lemma trim_idempotent (s : jsstring) : trim (trim s) = trim s.
Proof.
  unfold trim.
  pose proof (trimEnd_head (trimStart s) (trimStart_head s)) as H.
  rewrite (trimStart_fixed _ H).
  unfold trimEnd at 1. unfold trimEnd at 1. rewrite rev_involutive.
  rewrite (trimStart_fixed (trimStart (rev (trimStart s))));
    [reflexivity | apply trimStart_head].
Qed.

Lemma Map_get_delete (id k : jsstring) (s : Map) :
  Map_get k (Map_delete id s) = if str_eqb id k then None else Map_get k s.
Proof.
  unfold Map_delete. induction s as [|[k' v] s IH]; simpl.
  - destruct (str_eqb id k); reflexivity.
  - destruct (str_eqb k' id) eqn:E; simpl.
    + apply str_eqb_eq in E. subst k'. rewrite IH.
      destruct (str_eqb id k); reflexivity.
    + destruct (str_eqb k' k) eqn:E'; [|exact IH].
      apply str_eqb_eq in E'. subst k'.
      destruct (str_eqb id k) eqn:E''; [|reflexivity].
      apply str_eqb_eq in E''. subst k. rewrite str_eqb_refl in E.
      discriminate.
Qed.

Lemma Map_delete_absent (id : jsstring) (s : Map) :
  Map_has id s = false -> Map_delete id s = s.
Proof.
  unfold Map_has, Map_delete. induction s as [|[k v] s IH]; simpl;
    [reflexivity|].
  destruct (str_eqb k id) eqn:E; [discriminate|].
  intros H. simpl. rewrite IH by exact H. reflexivity.
Qed.

(** X1. [DELETE /contacts/:id] of the Map-backed server answers 200 when
    the id is a key and 404 when it is not; afterwards the id is no key,
    every other key has the record it had, and a 404 leaves the Map as it
    was. *)
Theorem map_delete_removes_that_key_only (id : jsstring) (contacts : Map) :
  status (fst (delete_contact id contacts))
  = (if Map_has id contacts then 200 else 404)%Z
  /\ Map_get id (snd (delete_contact id contacts)) = None
  /\ (forall k, k <> id ->
        Map_get k (snd (delete_contact id contacts)) = Map_get k contacts)
  /\ (Map_has id contacts = false ->
        snd (delete_contact id contacts) = contacts).
Proof.
  rewrite Map_delete_run. cbn [fst snd].
  split; [destruct (Map_has id contacts); reflexivity|].
  split; [rewrite Map_get_delete, str_eqb_refl; reflexivity|].
  split; [|apply Map_delete_absent].
  intros k Hk. rewrite Map_get_delete.
  destruct (str_eqb id k) eqn:E; [|reflexivity].
  apply str_eqb_eq in E. congruence.
Qed.

Lemma map_delete_removes_that_key_only_witness :
  Map_get (lit "B2")
    (snd (delete_contact (lit "A1") (map_after [sample "A1"; sample "B2"])))
  = Some (sample "B2")
  /\ snd (delete_contact (lit "Z9") (map_after [sample "A1"]))
     = map_after [sample "A1"].
Proof.
  split.
  - destruct (map_delete_removes_that_key_only (lit "A1")
                (map_after [sample "A1"; sample "B2"])) as [_ [_ [H _]]].
    rewrite (H (lit "B2")); [vm_compute; reflexivity|].
    intros E. vm_compute in E. discriminate.
  - destruct (map_delete_removes_that_key_only (lit "Z9")
                (map_after [sample "A1"])) as [_ [_ [_ H]]].
    apply H. vm_compute. reflexivity.
Defined.

(** X2. A second [DELETE] of the same id always answers 404 and changes
    nothing more, whatever the first one answered. *)
Theorem map_delete_twice_not_found (id : jsstring) (contacts : Map) :
  delete_contact id (snd (delete_contact id contacts))
  = (mkResponse 404 (JError "Contact not found"),
     snd (delete_contact id contacts)).
Proof.
  rewrite !Map_delete_run. cbn [snd].
  assert (H : Map_has id (Map_delete id contacts) = false).
  { unfold Map_has. rewrite Map_get_delete, str_eqb_refl. reflexivity. }
  rewrite H, (Map_delete_absent _ _ H). reflexivity.
Qed.

(** A request whose properties are strings or falsy: 201 or 400, a 400
    leaves the Map as it was, a 201 touches the entry of the id alone. *)
Lemma Map_post_cases (c : contact) (contacts : Map) :
  (status (fst (post_contacts c contacts)) = 201%Z
   \/ status (fst (post_contacts c contacts)) = 400%Z)
  /\ (status (fst (post_contacts c contacts)) = 400%Z ->
      snd (post_contacts c contacts) = contacts)
  /\ (status (fst (post_contacts c contacts)) = 201%Z ->
      exists k, Http.id c = Some k
        /\ forall k', k' <> k ->
             Map_get k' (snd (post_contacts c contacts))
             = Map_get k' contacts).
Proof.
  rewrite Map_post_run. cbv zeta.
  destruct (has_errors (fst (validateContact c true contacts))) eqn:E;
    cbn [fst snd status].
  - split; [right; reflexivity|]. split; [reflexivity | discriminate].
  - split; [left; reflexivity|]. split; [discriminate|]. intros _.
    apply Map_no_errors in E. destruct E as [_ E].
    destruct (E eq_refl) as [k [Hk _]]. exists k. split; [exact Hk|].
    rewrite Hk. intros k' Hne. apply Map_get_set_other. congruence.
Qed.

Lemma Map_post_known_id (c : contact) (x : jsstring)
  (contacts : Map)
  (Hid : Http.id c = Some x)
  (Hlen : (0 < List.length (trim x) <= 10)%nat)
  (Hin : In (trim x) (Map_keys contacts)) :
  exists errors,
    post_contacts c contacts
    = (mkResponse 400 (JValidation "Validation failed" errors), contacts)
    /\ get_prop "id" errors = Some "ID already exists".
Proof.
  rewrite Map_post_run. cbv zeta.
  destruct (has_errors (fst (validateContact c true contacts))) eqn:E.
  - eexists. split; [reflexivity|].
    destruct (Map_report_has_every_failing_field c true contacts)
      as [Hr _]. cbv zeta in Hr. rewrite Hr, Hid.
    unfold validateId. rewrite blank_trim.
    destruct (trim x) as [|a t] eqn:T; [simpl in Hlen; lia|].
    cbn [falsy].
    destruct (Nat.ltb_spec 10 (List.length (a :: t))); [lia|].
    run. apply Map_has_In in Hin. rewrite Hin. reflexivity.
  - apply Map_no_errors in E. destruct E as [_ E].
    destruct (E eq_refl) as [k [Hk Hhas]].
    rewrite Hid in Hk. injection Hk as <-.
    apply Map_has_In in Hin. congruence.
Qed.

End MapMore.

(** ** Updates, start-up data and the benchmark route *)

Section MapRoutes.

Import MapServer Startup.

Lemma Map_put_keys (id : jsstring) (body : contact)
  (contacts : Map) :
  Map_keys (snd (put_contact id body contacts)) = Map_keys contacts.
Proof.
  rewrite Map_put_run.
  destruct (Map_get id contacts); cbv zeta; cbn [snd];
    [apply Map_keys_assign | reflexivity].
Qed.

(** X5. [PUT /contacts/:id] of the Map-backed server answers 404 exactly
    when the id is no key, and then changes nothing.  Whatever it answers,
    it keeps the keys and their order, the record of every other key, and
    the id of the record it updates. *)
Theorem map_put_keeps_keys_and_ids (id : jsstring) (body : contact)
  (contacts : Map) :
  (status (fst (put_contact id body contacts)) = 404%Z
   <-> Map_has id contacts = false)
  /\ (Map_has id contacts = false ->
      snd (put_contact id body contacts) = contacts)
  /\ Map_keys (snd (put_contact id body contacts)) = Map_keys contacts
  /\ (forall k, k <> id ->
        Map_get k (snd (put_contact id body contacts)) = Map_get k contacts)
  /\ (forall c, Map_get id contacts = Some c ->
        exists c', Map_get id (snd (put_contact id body contacts)) = Some c'
                   /\ Http.id c' = Http.id c).
Proof.
  rewrite Map_put_run. unfold Map_has.
  destruct (Map_get id contacts) as [c|] eqn:G; cbv zeta; cbn [fst snd].
  - split.
    { destruct (has_errors _); cbn [status]; split; discriminate. }
    split; [discriminate|].
    split; [apply Map_keys_assign|].
    split; [intros k Hk; apply Map_get_assign_other; congruence|].
    intros c0 Hc0. injection Hc0 as <-. exists (merged body c).
    split; [rewrite Map_get_assign, G; reflexivity | apply merged_fields].
  - split; [split; reflexivity|].
    split; [reflexivity|]. split; [reflexivity|].
    split; [reflexivity | discriminate].
Qed.

Lemma map_put_keeps_keys_and_ids_witness :
  snd (put_contact (lit "Z9") (phone_only "555-000-1111")
         (map_after [sample "A1"]))
  = map_after [sample "A1"]
  /\ Map_get (lit "B2")
       (snd (put_contact (lit "A1") (phone_only "555-000-1111")
               (map_after [sample "A1"; sample "B2"])))
     = Some (sample "B2").
Proof.
  split.
  - apply (map_put_keeps_keys_and_ids (lit "Z9") (phone_only "555-000-1111")
             (map_after [sample "A1"])).
    vm_compute. reflexivity.
  - destruct (map_put_keeps_keys_and_ids (lit "A1")
                (phone_only "555-000-1111")
                (map_after [sample "A1"; sample "B2"]))
      as [_ [_ [_ [H _]]]].
    rewrite (H (lit "B2")); [vm_compute; reflexivity|].
    intros E. vm_compute in E. discriminate.
Defined.

(** X6. When [PUT /contacts/:id] answers 200, the record now stored under
    the id is the old one with the non-empty fields of the payload
    assigned, it passes every field rule, and a following
    [GET /contacts/:id] returns it. *)
Theorem map_put_ok_then_get (id : jsstring) (body : contact)
  (contacts : Map)
  (Hok : status (fst (put_contact id body contacts)) = 200%Z) :
  exists c,
    Map_get id contacts = Some c
    /\ record_ok (merged body c) = true
    /\ get_contact id (snd (put_contact id body contacts))
       = (mkResponse 200 (JContact (Some (merged body c))),
          snd (put_contact id body contacts)).
Proof.
  revert Hok. rewrite Map_put_run.
  destruct (Map_get id contacts) as [c|] eqn:G; cbv zeta; cbn [fst snd];
    [|discriminate].
  destruct (has_errors
              (fst (validateContact (merged body c) false
                      (Map_assign id (merged body) contacts)))) eqn:E;
    [discriminate|].
  intros _. exists c. split; [reflexivity|].
  apply Map_no_errors in E. destruct E as [Hvalid _].
  split; [exact Hvalid|].
  rewrite Map_get_run. unfold Map_has.
  rewrite Map_get_assign, G. reflexivity.
Qed.

Lemma map_put_ok_then_get_witness :
  exists c,
    Map_get (lit "A1") (map_after [sample "A1"]) = Some c
    /\ record_ok (merged (phone_only "555-000-1111") c) = true
    /\ get_contact (lit "A1")
         (snd (put_contact (lit "A1") (phone_only "555-000-1111")
                 (map_after [sample "A1"])))
       = (mkResponse 200
            (JContact (Some (merged (phone_only "555-000-1111") c))),
          snd (put_contact (lit "A1") (phone_only "555-000-1111")
                 (map_after [sample "A1"]))).
Proof.
  apply map_put_ok_then_get. vm_compute. reflexivity.
Defined.

Lemma keys_trimmed_has (k : jsstring) (s : Map) :
  keys_trimmed s -> Map_has (trim k) s = false -> Map_has k s = false.
Proof.
  intros Ht Hn. destruct (Map_has k s) eqn:E; [|reflexivity].
  apply Map_has_In in E. unfold keys_trimmed in Ht.
  rewrite Forall_forall in Ht. rewrite (Ht k E) in Hn.
  apply Map_has_In in E. congruence.
Qed.

(** X7. In a Map none of whose keys has white space at either end, a
    successful add never replaces a record: the Map afterwards is the Map
    before with the new entry put last. *)
Theorem map_post_appends_when_keys_trimmed (c : contact) (contacts : Map)
  (Htrimmed : keys_trimmed contacts)
  (Hcreated : status (fst (post_contacts c contacts)) = 201%Z) :
  exists k, Http.id c = Some k
            /\ snd (post_contacts c contacts) = contacts ++ [(k, c)].
Proof.
  destruct (Map_post_created c contacts
              (surjective_pairing (post_contacts c contacts)) Hcreated)
    as [k [Hid [Hs [_ Hhas]]]].
  exists k. split; [exact Hid|]. rewrite Hs.
  apply Map_set_absent. apply keys_trimmed_has; assumption.
Qed.

Lemma map_post_appends_when_keys_trimmed_witness :
  exists k, Http.id (sample " B2") = Some k
            /\ snd (post_contacts (sample " B2") (map_after [sample "A1"]))
               = map_after [sample "A1"] ++ [(k, sample " B2")].
Proof.
  apply map_post_appends_when_keys_trimmed.
  - unfold keys_trimmed.
    replace (Map_keys (map_after [sample "A1"])) with [lit "A1"]
      by (vm_compute; reflexivity).
    constructor; [vm_compute; reflexivity | constructor].
  - vm_compute. reflexivity.
Defined.

Lemma forEach_invariant (S A : Type) (P : S -> Prop) (xs : list A)
  (body : A -> M S unit) :
  (forall x s, In x xs -> P s -> P (snd (body x s))) ->
  forall s, P s -> P (snd (forEach xs body s)).
Proof.
  induction xs as [|x xs IH]; intros Hbody s Hs; [exact Hs|].
  simpl. unfold bind.
  pose proof (Hbody x s (or_introl eq_refl) Hs) as H1.
  destruct (body x s) as [u s1]. simpl in H1.
  apply IH; [|exact H1].
  intros y t Hy. apply Hbody. right. exact Hy.
Qed.

(** What one line of the test data does to the store. *)
Lemma loadLine_run (parts : list jsstring) (s : Map) :
  snd (loadLine parts s) = s
  \/ exists id firstName lastName phone address email,
       parts = [id; firstName; lastName; phone; address; email]
       /\ record_ok
            (mkContact (Some (trim id)) (Some (trim firstName))
               (Some (trim lastName)) (Some (trim phone))
               (Some (trim address)) (Some (trim email))) = true
       /\ Map_has (trim id) s = false
       /\ snd (loadLine parts s)
          = s ++ [(trim id,
                   mkContact (Some (trim id)) (Some (trim firstName))
                     (Some (trim lastName)) (Some (trim phone))
                     (Some (trim address)) (Some (trim email)))].
Proof.
  unfold loadLine.
  destruct parts as [|p1 [|p2 [|p3 [|p4 [|p5 [|p6 [|p7 parts]]]]]]];
    try (left; reflexivity).
  run.
  match goal with
  | |- context [validateContact ?c true s] =>
      pose proof (Map_validateContact_state c true s) as Hst;
      pose proof (Map_no_errors c true s) as Hno;
      destruct (validateContact c true s) as [e s']
  end.
  simpl in Hst. subst s'. cbn [fst] in Hno. unfold has_errors in Hno.
  destruct (List.length (keys e)) as [|n] eqn:L; cbn [Nat.eqb];
    [|left; reflexivity].
  right. exists p1, p2, p3, p4, p5, p6. split; [reflexivity|].
  destruct Hno as [Hno _]. destruct (Hno eq_refl) as [Hok Hk].
  destruct (Hk eq_refl) as [k [Hid Hhas]].
  cbn [Http.id] in Hid. injection Hid as <-.
  rewrite trim_idempotent in Hhas.
  split; [exact Hok|]. split; [exact Hhas|].
  cbn [snd]. apply Map_set_absent. exact Hhas.
Qed.

(** X8. One line of the test data never replaces a record.  A line that
    does not have six fields, or whose trimmed id is already a key, leaves
    the Map as it was.  Any line either leaves the Map as it was or is
    stored: then it has six fields, its trimmed id was no key, and the Map
    is the Map before with one entry put last, under the trimmed id, for
    the contact made of the six trimmed fields. *)
Theorem loadLine_keeps_first (parts : list jsstring) (contacts : Map) :
  (List.length parts <> 6%nat -> snd (loadLine parts contacts) = contacts)
  /\ (forall id rest,
         parts = id :: rest -> In (trim id) (Map_keys contacts) ->
         snd (loadLine parts contacts) = contacts)
  /\ (snd (loadLine parts contacts) = contacts
      \/ exists id firstName lastName phone address email,
           parts = [id; firstName; lastName; phone; address; email]
           /\ ~ In (trim id) (Map_keys contacts)
           /\ snd (loadLine parts contacts)
              = contacts
                ++ [(trim id,
                     mkContact (Some (trim id)) (Some (trim firstName))
                       (Some (trim lastName)) (Some (trim phone))
                       (Some (trim address)) (Some (trim email)))]).
Proof.
  destruct (loadLine_run parts contacts)
    as [H | [p1 [p2 [p3 [p4 [p5 [p6 [Hp [Hok [Hhas Hs]]]]]]]]]].
  - split; [intros _; exact H|]. split; [intros; exact H | left; exact H].
  - split; [subst parts; simpl; intros H; contradiction H; reflexivity|].
    split.
    + intros id rest Hparts Hin. subst parts. injection Hparts as <- _.
      apply Map_has_In in Hin. congruence.
    + right. exists p1, p2, p3, p4, p5, p6. split; [exact Hp|].
      split; [|exact Hs].
      intros Hin. apply Map_has_In in Hin. congruence.
Qed.

Lemma loadLine_keeps_first_witness :
  snd (loadLine [lit "A1"; lit "Jo"] (map_after [sample "A1"]))
  = map_after [sample "A1"]
  /\ snd (loadLine [lit " A1 "; lit "Zed"; lit "Li"; lit "555-123-4567";
                    lit ""; lit "zed@x.com"] (map_after [sample "A1"]))
     = map_after [sample "A1"]
  /\ snd (loadLine [lit " B2 "; lit "Zed"; lit " Li"; lit "555-123-4567";
                    lit ""; lit "zed@x.com"] (map_after [sample "A1"]))
     = map_after [sample "A1"]
       ++ [(lit "B2",
            mkContact (Some (lit "B2")) (Some (lit "Zed")) (Some (lit "Li"))
              (Some (lit "555-123-4567")) (Some []) (Some (lit "zed@x.com")))].
Proof.
  split; [|split].
  - apply (loadLine_keeps_first [lit "A1"; lit "Jo"]
             (map_after [sample "A1"])).
    simpl. discriminate.
  - destruct (loadLine_keeps_first
                [lit " A1 "; lit "Zed"; lit "Li"; lit "555-123-4567";
                 lit ""; lit "zed@x.com"] (map_after [sample "A1"]))
      as [_ [H _]].
    apply (H (lit " A1 ") _ eq_refl). vm_compute. left. reflexivity.
  - destruct (loadLine_keeps_first
                [lit " B2 "; lit "Zed"; lit " Li"; lit "555-123-4567";
                 lit ""; lit "zed@x.com"] (map_after [sample "A1"]))
      as [_ [_ [H | [p1 [p2 [p3 [p4 [p5 [p6 [Hp [_ Hs]]]]]]]]]]].
    + vm_compute in H. discriminate.
    + injection Hp as <- <- <- <- <- <-. rewrite Hs.
      vm_compute. reflexivity.
Defined.

End MapRoutes.

(** ** Start-up data, the benchmark route and the shape of the store *)

Section MapStore.

Import MapServer Startup.

Lemma Map_get_app (k : jsstring) (c : contact) (s t : Map) :
  Map_get k s = Some c -> Map_get k (s ++ t) = Some c.
Proof.
  induction s as [|[k' v] s IH]; simpl; [discriminate|].
  destruct (str_eqb k' k); [auto | exact IH].
Qed.

Lemma keys_trimmed_app (k : jsstring) (c : contact) (s : Map) :
  trim k = k -> keys_trimmed s -> keys_trimmed (s ++ [(k, c)]).
Proof.
  unfold keys_trimmed, Map_keys. intros Hk Hs. rewrite map_app.
  apply Forall_app. split; [exact Hs | repeat constructor; exact Hk].
Qed.

Lemma keys_trimmed_set (k : jsstring) (c : contact) (s : Map) :
  trim k = k -> keys_trimmed s -> keys_trimmed (Map_set k c s).
Proof.
  unfold keys_trimmed. intros Hk Hs. rewrite Map_keys_set.
  destruct (Map_has k s); [exact Hs|].
  apply Forall_app. split; [exact Hs | repeat constructor; exact Hk].
Qed.

(** X9. Loading the test data keeps what is stored and the shape of the
    store: no record that was in the Map is replaced or removed, the keys
    stay distinct with each record under its own id, the records stay
    valid, and the keys stay free of surrounding white space. *)
Theorem loadTestData_keeps_store (data : jsstring) (contacts : Map)
  (Hwf : Map_wf contacts) (Hvalid : Map_valid contacts)
  (Htrimmed : keys_trimmed contacts) :
  Map_wf (snd (loadTestData data contacts))
  /\ Map_valid (snd (loadTestData data contacts))
  /\ keys_trimmed (snd (loadTestData data contacts))
  /\ (forall k c, Map_get k contacts = Some c ->
        Map_get k (snd (loadTestData data contacts)) = Some c).
Proof.
  unfold loadTestData. cbv zeta.
  apply (forEach_invariant
           (fun s => Map_wf s /\ Map_valid s /\ keys_trimmed s
                     /\ (forall k c, Map_get k contacts = Some c ->
                                     Map_get k s = Some c))).
  - intros line s _ [Hw [Hv [Ht Hg]]].
    destruct (falsy (Some (trim line)));
      [exact (conj Hw (conj Hv (conj Ht Hg)))|].
    destruct (loadLine_run (split 44 line) s)
      as [H | [p1 [p2 [p3 [p4 [p5 [p6 [_ [Hok [Hhas Hs]]]]]]]]]];
      rewrite ?H; [exact (conj Hw (conj Hv (conj Ht Hg)))|].
    rewrite Hs. split; [|split; [|split]].
    + rewrite <- (Map_set_absent _ _ _ Hhas).
      apply Map_wf_set; [reflexivity | exact Hw].
    + apply Forall_app. split; [exact Hv | repeat constructor; exact Hok].
    + apply keys_trimmed_app; [apply trim_idempotent | exact Ht].
    + intros k c Hc. apply Map_get_app. apply Hg. exact Hc.
  - exact (conj Hwf (conj Hvalid (conj Htrimmed (fun k c H => H)))).
Qed.

Lemma loadTestData_keeps_store_witness :
  Map_wf (snd (loadTestData
                 (lit " B2 ,Jo,Li,555-123-4567,,jo@x.com" ++ [10%N]
                  ++ lit "A1,Zed,Li,555-123-4567,,zed@x.com")
                 (map_after [sample "A1"])))
  /\ Map_get (lit "A1")
       (snd (loadTestData
               (lit " B2 ,Jo,Li,555-123-4567,,jo@x.com" ++ [10%N]
                ++ lit "A1,Zed,Li,555-123-4567,,zed@x.com")
               (map_after [sample "A1"])))
     = Some (sample "A1").
Proof.
  assert (E : map_after [sample "A1"] = [(lit "A1", sample "A1")])
    by (vm_compute; reflexivity).
  rewrite E.
  assert (Hwf : Map_wf [(lit "A1", sample "A1")])
    by (split; [constructor; [intros [] | constructor]
               | constructor; [reflexivity | constructor]]).
  assert (Hvalid : Map_valid [(lit "A1", sample "A1")])
    by (constructor; [vm_compute; reflexivity | constructor]).
  assert (Htrim : keys_trimmed [(lit "A1", sample "A1")])
    by (constructor; [vm_compute; reflexivity | constructor]).
  destruct (loadTestData_keeps_store
              (lit " B2 ,Jo,Li,555-123-4567,,jo@x.com" ++ [10%N]
               ++ lit "A1,Zed,Li,555-123-4567,,zed@x.com")
              Hwf Hvalid Htrim) as [H1 [_ [_ H4]]].
  split; [exact H1|]. apply H4. vm_compute. reflexivity.
Defined.

Lemma lit_inj (a b : string) : lit a = lit b -> a = b.
Proof.
  unfold lit. intros H.
  rewrite <- (string_of_list_ascii_of_string a),
    <- (string_of_list_ascii_of_string b).
  f_equal. revert H.
  generalize (list_ascii_of_string a) (list_ascii_of_string b).
  induction l as [|x l IH]; intros [|y l']; simpl; try discriminate;
    [reflexivity|].
  intros H. injection H as Hxy Hl. f_equal; [|apply IH; exact Hl].
  rewrite <- (ascii_N_embedding x), <- (ascii_N_embedding y), Hxy.
  reflexivity.
Qed.

Lemma String_inj (i j : nat) : String_ i = String_ j -> i = j.
Proof.
  unfold String_. intros H. apply lit_inj in H.
  apply Unsigned.to_uint_inj.
  pose proof (NilEmpty.usu (Nat.to_uint i)) as Hi.
  pose proof (NilEmpty.usu (Nat.to_uint j)) as Hj.
  rewrite H in Hi. congruence.
Qed.

Lemma last_with_id_testContacts (k : jsstring) (a n : nat) :
  last_with_id k (map testContact (seq a n))
  = match find (fun i => str_eqb (String_ i) k) (seq a n) with
    | Some i => Some (testContact i)
    | None => None
    end.
Proof.
  revert a. induction n as [|n IH]; intros a; simpl; [reflexivity|].
  rewrite IH. unfold ArrayServer.id_is. cbn [Http.id testContact].
  destruct (str_eqb (String_ a) k) eqn:E.
  - destruct (find (fun i => str_eqb (String_ i) k) (seq (S a) n)) as [i|]
      eqn:F; [|reflexivity].
    apply find_some in F. destruct F as [Hin Hi].
    apply str_eqb_eq in E. apply str_eqb_eq in Hi.
    rewrite <- Hi in E. apply String_inj in E.
    apply in_seq in Hin. lia.
  - destruct (find (fun i => str_eqb (String_ i) k) (seq (S a) n));
      reflexivity.
Qed.

Lemma performance_run (l : list contact) (k : jsstring) (s : Map) :
  Map_get k
    (snd (forEach l
            (fun c => match Http.id c with
                      | Some key => modify (Map_set key c)
                      | None => ret tt
                      end) s))
  = match last_with_id k l with
    | Some c => Some c
    | None => Map_get k s
    end.
Proof.
  revert s. induction l as [|c l IH]; intros s; simpl; [reflexivity|].
  unfold bind at 1. unfold ArrayServer.id_is.
  destruct (Http.id c) as [key|]; cbv [modify ret]; rewrite IH;
    destruct (last_with_id k l); try reflexivity.
  destruct (str_eqb key k) eqn:E.
  - apply str_eqb_eq in E. subst key. apply Map_get_set.
  - apply Map_get_set_other. apply str_eqb_neq. exact E.
Qed.

(** X10. [GET /performance] writes to the store: afterwards each of the
    ids "0" to "99" has the benchmark's own contact, whatever record it
    had before, and every other id has the record it had. *)
Theorem performance_overwrites_numbered_ids (contacts : Map) :
  (forall i, (i < 100)%nat ->
     Map_get (String_ i) (snd (performance contacts))
     = Some (testContact i))
  /\ (forall k, (forall i, (i < 100)%nat -> k <> String_ i) ->
        Map_get k (snd (performance contacts)) = Map_get k contacts).
Proof.
  unfold performance, testContacts. split.
  - intros i Hi. rewrite performance_run, last_with_id_testContacts.
    destruct (find (fun j => str_eqb (String_ j) (String_ i)) (seq 0 100))
      as [j|] eqn:F.
    + apply find_some in F. destruct F as [_ Hj].
      apply str_eqb_eq in Hj. apply String_inj in Hj. subst j. reflexivity.
    + pose proof (find_none _ _ F i ltac:(apply in_seq; lia)) as N.
      simpl in N. rewrite str_eqb_refl in N. discriminate.
  - intros k Hk. rewrite performance_run, last_with_id_testContacts.
    destruct (find (fun j => str_eqb (String_ j) k) (seq 0 100)) as [j|]
      eqn:F; [|reflexivity].
    apply find_some in F. destruct F as [Hin Hj].
    apply str_eqb_eq in Hj. apply in_seq in Hin.
    elim (Hk j); [lia | congruence].
Qed.

Lemma performance_overwrites_numbered_ids_witness :
  Map_get (lit "50") (snd (performance (map_after [sample "50"])))
  = Some (testContact 50)
  /\ Map_get (lit "A1") (snd (performance (map_after [sample "A1"])))
     = Map_get (lit "A1") (map_after [sample "A1"]).
Proof.
  split.
  - change (lit "50") with (String_ 50).
    apply (proj1 (performance_overwrites_numbered_ids
                    (map_after [sample "50"]))).
    lia.
  - apply (proj2 (performance_overwrites_numbered_ids
                    (map_after [sample "A1"]))).
    intros i Hi E.
    assert (H : forallb (fun j => negb (str_eqb (lit "A1") (String_ j)))
                  (seq 0 100) = true) by (vm_compute; reflexivity).
    rewrite forallb_forall in H.
    specialize (H i ltac:(apply in_seq; lia)).
    rewrite E, str_eqb_refl in H. discriminate.
Defined.

End MapStore.

(** ** Invariants of the Map-backed store *)

Section MapInvariants.

Import MapServer Startup.

Lemma testContacts_ok (c : contact) :
  In c testContacts ->
  exists k, Http.id c = Some k /\ record_ok c = true /\ trim k = k.
Proof.
  intros Hin.
  assert (H : forallb
                (fun c => record_ok c
                          && match Http.id c with
                             | Some k => str_eqb (trim k) k
                             | None => false
                             end) testContacts = true)
    by (vm_compute; reflexivity).
  rewrite forallb_forall in H. specialize (H c Hin).
  apply andb_true_iff in H. destruct H as [Hok Hk].
  destruct (Http.id c) as [k|]; [|discriminate].
  exists k. apply str_eqb_eq in Hk. auto.
Qed.

Lemma performance_invariant (P : Map -> Prop) (s : Map) :
  (forall k c t, Http.id c = Some k -> record_ok c = true -> trim k = k ->
                 P t -> P (Map_set k c t)) ->
  P s -> P (snd (performance s)).
Proof.
  intros Hset. unfold performance. apply forEach_invariant.
  intros c t Hin Ht.
  destruct (testContacts_ok Hin) as [k [Hid [Hok Hk]]].
  rewrite Hid. cbn. apply Hset; assumption.
Qed.

(** X11. Every route of the Map-backed server that writes keeps the keys
    of the Map distinct and each record under the key that is its id: add,
    update, delete and the benchmark route. *)
Theorem map_routes_keep_ids_as_keys (id : jsstring) (body c : contact)
  (contacts : Map) (Hwf : Map_wf contacts) :
  Map_wf (snd (post_contacts c contacts))
  /\ Map_wf (snd (put_contact id body contacts))
  /\ Map_wf (snd (delete_contact id contacts))
  /\ Map_wf (snd (performance contacts)).
Proof.
  destruct (Map_wf_handlers id c [] Hwf) as [H1 _].
  destruct (Map_wf_handlers id body [] Hwf) as [_ [H2 [H3 _]]].
  split; [exact H1|]. split; [exact H2|]. split; [exact H3|].
  apply performance_invariant; [|exact Hwf].
  intros k c0 t Hid _ _ Ht. apply Map_wf_set; assumption.
Qed.

Lemma map_routes_keep_ids_as_keys_witness :
  (status (fst (post_contacts (sample "D4")
                  (map_after [sample "B2"; sample "A1"; sample "C3"])))
   = 201%Z
   /\ Map_wf (snd (post_contacts (sample "D4")
                     (map_after [sample "B2"; sample "A1"; sample "C3"]))))
  /\ (status (fst (put_contact (lit "A1") (phone_only "555-000-1111")
                     (map_after [sample "B2"; sample "A1"; sample "C3"])))
      = 200%Z
      /\ Map_wf (snd (put_contact (lit "A1") (phone_only "555-000-1111")
                        (map_after [sample "B2"; sample "A1"; sample "C3"]))))
  /\ (status (fst (delete_contact (lit "A1")
                     (map_after [sample "B2"; sample "A1"; sample "C3"])))
      = 200%Z
      /\ Map_wf (snd (delete_contact (lit "A1")
                        (map_after [sample "B2"; sample "A1"; sample "C3"]))))
  /\ Map_wf (snd (performance
                    (map_after [sample "B2"; sample "A1"; sample "C3"]))).
Proof.
  destruct (map_routes_keep_ids_as_keys (lit "A1")
              (phone_only "555-000-1111") (sample "D4")
              map_after_B2_A1_C3_wf) as [H1 [H2 [H3 H4]]].
  split; [split; [vm_compute; reflexivity | exact H1]|].
  split; [split; [vm_compute; reflexivity | exact H2]|].
  split; [split; [vm_compute; reflexivity | exact H3]|].
  exact H4.
Defined.

(** X12. The records of the Map-backed store stay valid under every add,
    every delete, the benchmark route, and every update that answers
    200. *)
Theorem map_routes_keep_records_valid (id : jsstring) (body c : contact)
  (contacts : Map) (Hvalid : Map_valid contacts) :
  Map_valid (snd (post_contacts c contacts))
  /\ Map_valid (snd (delete_contact id contacts))
  /\ Map_valid (snd (performance contacts))
  /\ (status (fst (put_contact id body contacts)) = 200%Z ->
      Map_valid (snd (put_contact id body contacts))).
Proof.
  split; [apply Map_post_valid; exact Hvalid|].
  split; [apply Map_delete_valid; exact Hvalid|].
  split.
  - apply performance_invariant; [|exact Hvalid].
    intros k c0 t _ Hok _ Ht. apply Map_valid_set; assumption.
  - intros H. apply Map_put_ok_valid; assumption.
Qed.

Lemma map_routes_keep_records_valid_witness :
  Map_valid (snd (post_contacts (sample "B2") (map_after [sample "A1"])))
  /\ Map_valid (snd (put_contact (lit "A1") (phone_only "555-000-1111")
                       (map_after [sample "A1"]))).
Proof.
  assert (Hvalid : Map_valid (map_after [sample "A1"])).
  { replace (map_after [sample "A1"]) with [(lit "A1", sample "A1")]
      by (vm_compute; reflexivity).
    constructor; [vm_compute; reflexivity | constructor]. }
  destruct (map_routes_keep_records_valid (lit "A1")
              (phone_only "555-000-1111") (sample "B2") Hvalid)
    as [H1 [_ [_ H4]]].
  split; [exact H1|]. apply H4. vm_compute. reflexivity.
Defined.

(** X13. Keys free of surrounding white space stay so under update,
    delete and the benchmark route, and under the add of a candidate whose
    id has none (as the React client sends it). *)
Theorem map_routes_keep_keys_trimmed (id x : jsstring) (body c : contact)
  (contacts : Map) (Htrimmed : keys_trimmed contacts)
  (Hid : Http.id c = Some x) (Hx : trim x = x) :
  keys_trimmed (snd (post_contacts c contacts))
  /\ keys_trimmed (snd (put_contact id body contacts))
  /\ keys_trimmed (snd (delete_contact id contacts))
  /\ keys_trimmed (snd (performance contacts)).
Proof.
  split; [|split; [|split]].
  - rewrite Map_post_run. cbv zeta.
    destruct (has_errors (fst (validateContact c true contacts)));
      [exact Htrimmed|].
    cbn [snd]. rewrite Hid. apply keys_trimmed_set; assumption.
  - unfold keys_trimmed. rewrite Map_put_keys. exact Htrimmed.
  - rewrite Map_delete_run. cbn [snd]. unfold keys_trimmed, Map_delete,
      Map_keys in *.
    rewrite Forall_forall in *. intros k Hk. apply Htrimmed.
    apply in_map_iff in Hk. destruct Hk as [e [He Hin]].
    apply filter_In in Hin. apply in_map_iff. exists e. tauto.
  - apply performance_invariant; [|exact Htrimmed].
    intros k c0 t _ _ Hk Ht. apply keys_trimmed_set; assumption.
Qed.

Lemma map_routes_keep_keys_trimmed_witness :
  (status (fst (post_contacts (sample "D4")
                  (map_after [sample "A1"; sample "B2"]))) = 201%Z
   /\ keys_trimmed (snd (post_contacts (sample "D4")
                           (map_after [sample "A1"; sample "B2"]))))
  /\ (status (fst (put_contact (lit "A1") (phone_only "555-000-1111")
                     (map_after [sample "A1"; sample "B2"]))) = 200%Z
      /\ keys_trimmed (snd (put_contact (lit "A1")
                              (phone_only "555-000-1111")
                              (map_after [sample "A1"; sample "B2"]))))
  /\ (status (fst (delete_contact (lit "A1")
                     (map_after [sample "A1"; sample "B2"]))) = 200%Z
      /\ keys_trimmed (snd (delete_contact (lit "A1")
                              (map_after [sample "A1"; sample "B2"]))))
  /\ keys_trimmed (snd (performance (map_after [sample "A1"; sample "B2"]))).
Proof.
  assert (Htrimmed : keys_trimmed (map_after [sample "A1"; sample "B2"])).
  { unfold keys_trimmed.
    replace (Map_keys (map_after [sample "A1"; sample "B2"]))
      with [lit "A1"; lit "B2"] by (vm_compute; reflexivity).
    constructor; [vm_compute; reflexivity|].
    constructor; [vm_compute; reflexivity | constructor]. }
  assert (Hx : trim (lit "D4") = lit "D4") by (vm_compute; reflexivity).
  destruct (@map_routes_keep_keys_trimmed (lit "A1") (lit "D4")
              (phone_only "555-000-1111") (sample "D4")
              (map_after [sample "A1"; sample "B2"]) Htrimmed eq_refl Hx)
    as [H1 [H2 [H3 H4]]].
  split; [split; [vm_compute; reflexivity | exact H1]|].
  split; [split; [vm_compute; reflexivity | exact H2]|].
  split; [split; [vm_compute; reflexivity | exact H3]|].
  exact H4.
Defined.

End MapInvariants.

(** ** Further properties of the array-backed server *)

Section ArrayMore.

Import ArrayServer.

Lemma id_is_false (id : jsstring) (c : contact) :
  id_is id c = false <-> Http.id c <> Some id.
Proof.
  unfold id_is. destruct (Http.id c) as [k|].
  - rewrite str_eqb_neq. split; congruence.
  - split; [discriminate | reflexivity].
Qed.

Lemma id_is_true (id : jsstring) (c : contact) :
  id_is id c = true <-> Http.id c = Some id.
Proof.
  unfold id_is. destruct (Http.id c) as [k|].
  - rewrite str_eqb_eq. split; congruence.
  - split; discriminate.
Qed.

(** [findIndex] gives the place of the first match, or -1. *)
Lemma findIndex_spec (p : contact -> bool) (s : list contact) :
  (findIndex p s = (-1)%Z /\ forall c, In c s -> p c = false)
  \/ exists before old after,
       s = before ++ old :: after
       /\ p old = true
       /\ (forall c, In c before -> p c = false)
       /\ findIndex p s = Z.of_nat (List.length before).
Proof.
  induction s as [|c s IH]; simpl.
  - left. split; [reflexivity | intros c []].
  - destruct (p c) eqn:E.
    + right. exists [], c, s. simpl. repeat split; try assumption.
      intros c0 [].
    + destruct IH as [[H1 H2] | [before [old [after [Hs [Hp [Hb Hi]]]]]]].
      * left. rewrite H1. simpl. split; [reflexivity|].
        intros c0 [<-|Hc0]; auto.
      * right. exists (c :: before), old, after. rewrite Hi, Hs.
        destruct (Z.eqb_spec (Z.of_nat (List.length before)) (-1)); [lia|].
        simpl List.length. repeat split; try assumption; [|lia].
        intros c0 [<-|Hc0]; auto.
Qed.

Lemma assign_nth_app (v old : contact) (before after : list contact) :
  assign_nth (List.length before) v (before ++ old :: after)
  = before ++ v :: after.
Proof.
  induction before as [|c before IH]; simpl; [reflexivity|].
  rewrite IH. reflexivity.
Qed.

Lemma Array_report_id (c : contact) (isNewContact : bool)
  (contacts : list contact) :
  get_prop "id" (fst (validateContact c isNewContact contacts))
  = fst (validateId (Http.id c) isNewContact contacts)
  /\ get_prop "phone" (fst (validateContact c isNewContact contacts))
     = validatePhone (phone c).
Proof.
  unfold validateContact, bind, ret.
  destruct (validateId (Http.id c) isNewContact contacts) as [[e|] s'];
    split_fields c; cbn; split; reflexivity.
Qed.

(** X14. [PUT /contacts/:id] of the array-backed server answers 404
    exactly when no stored contact has the id, and an update that does not
    answer 200 leaves the array as it was: the payload is validated before
    anything is written. *)
Theorem array_put_rejected_unchanged (id : jsstring) (body : contact)
  (contacts : list contact) :
  (status (fst (put_contact id body contacts)) = 404%Z
   <-> forall c, In c contacts -> Http.id c <> Some id)
  /\ (status (fst (put_contact id body contacts)) <> 200%Z ->
      snd (put_contact id body contacts) = contacts).
Proof.
  split; [|apply Array_put_atomic].
  rewrite Array_put_run. cbv zeta.
  destruct (findIndex_spec (id_is id) contacts)
    as [[H1 H2] | [before [old [after [Hs [Hp [Hb Hi]]]]]]].
  - rewrite H1. simpl. split; [|reflexivity].
    intros _ c Hc. apply id_is_false. auto.
  - rewrite Hi.
    destruct (Z.eqb_spec (Z.of_nat (List.length before)) (-1)); [lia|].
    split.
    + destruct (has_errors _); simpl; discriminate.
    + intros H. apply id_is_true in Hp. elim (H old); [|exact Hp].
      rewrite Hs. apply in_or_app. right. left. reflexivity.
Qed.

Lemma array_put_rejected_unchanged_witness :
  snd (put_contact (lit "A1") (phone_only "bad") (array_after [sample "A1"]))
  = array_after [sample "A1"].
Proof.
  apply (array_put_rejected_unchanged (lit "A1") (phone_only "bad")
           (array_after [sample "A1"])).
  vm_compute. discriminate.
Defined.

(** X15. When [PUT /contacts/:id] of the array-backed server answers 200,
    the first stored contact with the id is replaced, in its place, by the
    contact made of the route's id and of the five fields of the payload;
    every other element of the array is as before.  The replacement is
    whole: a field the payload leaves out is absent afterwards. *)
Theorem array_put_replaces_first_match (id : jsstring) (body : contact)
  (contacts : list contact)
  (Hok : status (fst (put_contact id body contacts)) = 200%Z) :
  exists before old after,
    contacts = before ++ old :: after
    /\ Http.id old = Some id
    /\ (forall c, In c before -> Http.id c <> Some id)
    /\ snd (put_contact id body contacts)
       = before
         ++ mkContact (Some id) (firstName body) (lastName body)
              (phone body) (address body) (email body)
         :: after.
Proof.
  revert Hok. rewrite Array_put_run. cbv zeta.
  destruct (findIndex_spec (id_is id) contacts)
    as [[H1 H2] | [before [old [after [Hs [Hp [Hb Hi]]]]]]].
  - rewrite H1. simpl. discriminate.
  - rewrite Hi.
    destruct (Z.eqb_spec (Z.of_nat (List.length before)) (-1)); [lia|].
    destruct (has_errors _); simpl; [discriminate|]. intros _.
    exists before, old, after. split; [exact Hs|].
    split; [apply id_is_true; exact Hp|].
    split; [intros c Hc; apply id_is_false; auto|].
    rewrite Nat2Z.id, Hs. apply assign_nth_app.
Qed.

Lemma array_put_replaces_first_match_witness :
  exists before old after,
    array_after [sample "A1"; sample "B2"] = before ++ old :: after
    /\ Http.id old = Some (lit "B2")
    /\ (forall c, In c before -> Http.id c <> Some (lit "B2"))
    /\ snd (put_contact (lit "B2") (sample "ignored")
              (array_after [sample "A1"; sample "B2"]))
       = before
         ++ mkContact (Some (lit "B2")) (firstName (sample "ignored"))
              (lastName (sample "ignored")) (phone (sample "ignored"))
              (address (sample "ignored")) (email (sample "ignored"))
         :: after.
Proof.
  apply array_put_replaces_first_match. vm_compute. reflexivity.
Defined.

(** A payload of strings or falsy values whose id is blank. *)
Lemma Array_put_blank_id (id : jsstring) (body : contact)
  (contacts : list contact) (Hblank : blank (Http.id body) = true) :
  status (fst (put_contact id body contacts)) <> 200%Z
  /\ snd (put_contact id body contacts) = contacts
  /\ ((exists c, In c contacts /\ Http.id c = Some id) ->
      exists errors,
        fst (put_contact id body contacts)
        = mkResponse 400 (JValidation "Validation failed" errors)
        /\ get_prop "id" errors = Some "ID is required").
Proof.
  assert (Hrep : get_prop "id"
                   (fst (validateContact body false contacts))
                 = Some "ID is required").
  { destruct (Array_report_id body false contacts)
      as [Hr _].
    rewrite Hr. unfold validateId.
    destruct (Http.id body) as [x|]; [|reflexivity].
    rewrite Hblank. reflexivity. }
  assert (Herr : has_errors (fst (validateContact body false contacts))
                 = true).
  { destruct (has_errors _) eqn:E; [reflexivity|].
    apply Array_no_errors in E. destruct E as [E _].
    unfold record_ok in E. rewrite Hblank in E. discriminate. }
  rewrite Array_put_run. cbv zeta. rewrite Herr.
  destruct (findIndex_spec (id_is id) contacts)
    as [[H1 H2] | [before [old [after [Hs [Hp [Hb Hi]]]]]]].
  - rewrite H1. simpl. split; [discriminate|]. split; [reflexivity|].
    intros [c [Hc Hid]]. apply id_is_true in Hid. rewrite H2 in Hid by exact Hc.
    discriminate.
  - rewrite Hi.
    destruct (Z.eqb_spec (Z.of_nat (List.length before)) (-1)); [lia|].
    simpl. split; [discriminate|]. split; [reflexivity|].
    intros _. eexists. split; [reflexivity | exact Hrep].
Qed.

End ArrayMore.

(** ** Deleting and adding in the array-backed server *)

Section ArrayStore.

Import ArrayServer.

Lemma filter_same (A : Type) (f : A -> bool) (l : list A) :
  List.length (filter f l) = List.length l ->
  filter f l = l /\ forall x, In x l -> f x = true.
Proof.
  induction l as [|x l IH]; simpl; [intros _; split; [reflexivity|intros ? []]|].
  destruct (f x) eqn:E; simpl; intros H.
  - injection H as H. destruct (IH H) as [H1 H2]. rewrite H1.
    split; [reflexivity|]. intros y [<-|Hy]; auto.
  - pose proof (filter_length_le f l). lia.
Qed.

Lemma filter_twice (A : Type) (f : A -> bool) (l : list A) :
  filter f (filter f l) = filter f l.
Proof.
  induction l as [|x l IH]; simpl; [reflexivity|].
  destruct (f x) eqn:E; simpl; rewrite ?E, IH; reflexivity.
Qed.

Lemma Array_delete_run (id : jsstring) (s : list contact) :
  delete_contact id s
  = (if (List.length (filter (fun c => negb (id_is id c)) s)
         =? List.length s)%nat
     then mkResponse 404 (JError "Contact not found")
     else mkResponse 200 (JMessage "Contact deleted successfully"),
     filter (fun c => negb (id_is id c)) s).
Proof.
  unfold delete_contact. run.
  destruct (List.length (filter (fun c => negb (id_is id c)) s)
            =? List.length s)%nat; reflexivity.
Qed.

(** X17. [DELETE /contacts/:id] of the array-backed server removes every
    stored contact that has the id and keeps the others in their order; it
    answers 404 exactly when no contact has the id, in which case the
    array is as before; a second delete of the same id answers 404. *)
Theorem array_delete_removes_every_match (id : jsstring)
  (contacts : list contact) :
  snd (delete_contact id contacts)
  = filter (fun c => negb (id_is id c)) contacts
  /\ (status (fst (delete_contact id contacts)) = 404%Z
      <-> forall c, In c contacts -> Http.id c <> Some id)
  /\ (status (fst (delete_contact id contacts)) = 404%Z ->
      snd (delete_contact id contacts) = contacts)
  /\ status (fst (delete_contact id (snd (delete_contact id contacts))))
     = 404%Z.
Proof.
  rewrite !Array_delete_run. cbn [fst snd].
  split; [reflexivity|].
  destruct (Nat.eqb_spec
              (List.length (filter (fun c => negb (id_is id c)) contacts))
              (List.length contacts)) as [E|E].
  - destruct (filter_same _ _ E) as [H1 H2].
    split; [|split; [intros _; exact H1|]].
    + split; [|reflexivity]. intros _ c Hc. apply id_is_false.
      apply negb_true_iff. auto.
    + rewrite H1. rewrite H1, Nat.eqb_refl. reflexivity.
  - split; [|split; [discriminate|]].
    + split; [discriminate|]. intros H. elim E. f_equal.
      apply forallb_filter_id. apply forallb_forall. intros c Hc.
      apply negb_true_iff. apply id_is_false. auto.
    + rewrite filter_twice, Nat.eqb_refl. reflexivity.
Qed.

Lemma array_delete_removes_every_match_witness :
  snd (delete_contact (lit "Z9") (array_after [sample "A1"]))
  = array_after [sample "A1"].
Proof.
  apply (array_delete_removes_every_match (lit "Z9")
           (array_after [sample "A1"])).
  vm_compute. reflexivity.
Defined.

(** X18. The records of the array-backed store stay valid under every
    add, update and delete. *)
Theorem array_routes_keep_records_valid (id : jsstring) (body c : contact)
  (contacts : list contact) (Hvalid : Array_valid contacts) :
  Array_valid (snd (post_contacts c contacts))
  /\ Array_valid (snd (put_contact id body contacts))
  /\ Array_valid (snd (delete_contact id contacts)).
Proof.
  destruct (Array_handlers_valid id c Hvalid) as [H1 _].
  destruct (Array_handlers_valid id body Hvalid) as [_ [H2 H3]].
  auto.
Qed.

Lemma array_routes_keep_records_valid_witness :
  (status (fst (post_contacts (sample "D4")
                  (array_after [sample "A1"; sample "B2"]))) = 201%Z
   /\ Array_valid (snd (post_contacts (sample "D4")
                          (array_after [sample "A1"; sample "B2"]))))
  /\ (status (fst (put_contact (lit "A1") (sample "A1")
                     (array_after [sample "A1"; sample "B2"]))) = 200%Z
      /\ Array_valid (snd (put_contact (lit "A1") (sample "A1")
                             (array_after [sample "A1"; sample "B2"]))))
  /\ (status (fst (delete_contact (lit "A1")
                     (array_after [sample "A1"; sample "B2"]))) = 200%Z
      /\ Array_valid (snd (delete_contact (lit "A1")
                             (array_after [sample "A1"; sample "B2"])))).
Proof.
  assert (Hvalid : Array_valid (array_after [sample "A1"; sample "B2"])).
  { replace (array_after [sample "A1"; sample "B2"])
      with [sample "A1"; sample "B2"] by (vm_compute; reflexivity).
    constructor; [vm_compute; reflexivity|].
    constructor; [vm_compute; reflexivity | constructor]. }
  destruct (array_routes_keep_records_valid (lit "A1") (sample "A1")
              (sample "D4") Hvalid) as [H1 [H2 H3]].
  split; [split; [vm_compute; reflexivity | exact H1]|].
  split; [split; [vm_compute; reflexivity | exact H2]|].
  split; [vm_compute; reflexivity | exact H3].
Defined.

(** A request whose properties are strings or falsy. *)
Lemma Array_post_cases (c : contact) (contacts : list contact) :
  (status (fst (post_contacts c contacts)) = 400%Z
   /\ snd (post_contacts c contacts) = contacts)
  \/ (status (fst (post_contacts c contacts)) = 201%Z
      /\ get_contacts (snd (post_contacts c contacts))
         = (mkResponse 200 (JContacts (contacts ++ [c])),
            contacts ++ [c])).
Proof.
  rewrite Array_post_run. cbv zeta.
  destruct (has_errors (fst (validateContact c true contacts)));
    [left | right]; split; reflexivity.
Qed.

Lemma find_none_id (k : jsstring) (s : list contact) :
  find (id_is k) s = None -> ~ In (Some k) (ids s).
Proof.
  intros H Hin. unfold ids in Hin. apply in_map_iff in Hin.
  destruct Hin as [c [Hc Hin]].
  pose proof (find_none _ _ H c Hin) as N.
  apply id_is_false in N. contradiction.
Qed.

Lemma ids_assign_nth (before after : list contact) (old v : contact) :
  Http.id v = Http.id old ->
  ids (before ++ v :: after) = ids (before ++ old :: after).
Proof.
  intros H. unfold ids. rewrite !map_app. simpl. rewrite H. reflexivity.
Qed.

(** Dropping contacts keeps distinct ids distinct. *)
Lemma ids_filter_NoDup (keep : contact -> bool) (s : list contact) :
  NoDup (ids s) -> NoDup (ids (filter keep s)).
Proof.
  unfold ids. induction s as [|c s IH]; simpl; intros Hnd; [exact Hnd|].
  apply NoDup_cons_iff in Hnd. destruct Hnd as [Hc Hs].
  destruct (keep c); simpl; [|apply IH; exact Hs].
  apply NoDup_cons_iff. split; [|apply IH; exact Hs].
  intros Hin. apply Hc. apply in_map_iff in Hin.
  destruct Hin as [c' [Hid Hc']]. apply filter_In in Hc'.
  apply in_map_iff. exists c'. tauto.
Qed.

(** X20. When the ids of the array are distinct strings without
    surrounding white space, they stay so under update, under delete, and
    under the add of a candidate whose id has no surrounding white space:
    with such ids the array never holds two contacts with one id. *)
Theorem array_routes_keep_ids_unique (id x : jsstring) (body c : contact)
  (contacts : list contact) (Hunique : Array_unique contacts)
  (Hid : Http.id c = Some x) (Hx : trim x = x) :
  Array_unique (snd (post_contacts c contacts))
  /\ Array_unique (snd (put_contact id body contacts))
  /\ Array_unique (snd (delete_contact id contacts)).
Proof.
  destruct Hunique as [Hnd Hall]. split; [|split].
  - rewrite Array_post_run. cbv zeta.
    destruct (has_errors (fst (validateContact c true contacts))) eqn:E;
      [split; assumption|].
    apply Array_no_errors in E. destruct E as [_ E].
    destruct (E eq_refl) as [k [Hk Hfind]].
    rewrite Hid in Hk. injection Hk as <-. rewrite Hx in Hfind.
    cbn [snd]. split.
    + unfold ids. rewrite map_app. simpl. rewrite Hid.
      apply NoDup_app; [exact Hnd | repeat constructor; auto |].
      intros y Hy [<-|[]]. exact (find_none_id _ _ Hfind Hy).
    + apply Forall_app. split; [exact Hall|].
      repeat constructor. exists x. auto.
  - rewrite Array_put_run. cbv zeta.
    destruct (findIndex_spec (id_is id) contacts)
      as [[H1 H2] | [before [old [after [Hs [Hp [Hb Hi]]]]]]].
    + rewrite H1. simpl. split; assumption.
    + rewrite Hi.
      destruct (Z.eqb_spec (Z.of_nat (List.length before)) (-1)); [lia|].
      destruct (has_errors _); [split; assumption|].
      cbn [snd]. rewrite Nat2Z.id, Hs, assign_nth_app.
      apply id_is_true in Hp. split.
      * rewrite (@ids_assign_nth before after old);
          [rewrite <- Hs; exact Hnd | simpl; congruence].
      * rewrite Hs in Hall. apply Forall_app in Hall.
        destruct Hall as [Ha Hb']. inversion Hb' as [|? ? Hold Hafter]; subst.
        apply Forall_app. split; [exact Ha|].
        constructor; [|exact Hafter].
        destruct Hold as [k [Hk Hkt]]. exists id. simpl.
        split; [reflexivity | congruence].
  - rewrite Array_delete_run. cbn [snd]. split.
    + apply ids_filter_NoDup. exact Hnd.
    + apply Forall_forall. intros y Hy. apply filter_In in Hy.
      rewrite Forall_forall in Hall. apply Hall. tauto.
Qed.

Lemma array_routes_keep_ids_unique_witness :
  (status (fst (post_contacts (sample "D4")
                  (array_after [sample "A1"; sample "B2"]))) = 201%Z
   /\ Array_unique (snd (post_contacts (sample "D4")
                           (array_after [sample "A1"; sample "B2"]))))
  /\ (status (fst (put_contact (lit "A1") (sample "A1")
                     (array_after [sample "A1"; sample "B2"]))) = 200%Z
      /\ Array_unique (snd (put_contact (lit "A1") (sample "A1")
                              (array_after [sample "A1"; sample "B2"]))))
  /\ (status (fst (delete_contact (lit "A1")
                     (array_after [sample "A1"; sample "B2"]))) = 200%Z
      /\ Array_unique (snd (delete_contact (lit "A1")
                              (array_after [sample "A1"; sample "B2"])))).
Proof.
  assert (Hunique : Array_unique (array_after [sample "A1"; sample "B2"])).
  { replace (array_after [sample "A1"; sample "B2"])
      with [sample "A1"; sample "B2"] by (vm_compute; reflexivity).
    split.
    - constructor.
      + intros [H|[]]. vm_compute in H. discriminate.
      + constructor; [intros [] | constructor].
    - constructor;
        [exists (lit "A1"); split; [reflexivity | vm_compute; reflexivity]|].
      constructor;
        [exists (lit "B2"); split; [reflexivity | vm_compute; reflexivity]
        |constructor]. }
  assert (Hx : trim (lit "D4") = lit "D4") by (vm_compute; reflexivity).
  destruct (@array_routes_keep_ids_unique (lit "A1") (lit "D4") (sample "A1")
              (sample "D4") (array_after [sample "A1"; sample "B2"])
              Hunique eq_refl Hx) as [H1 [H2 H3]].
  split; [split; [vm_compute; reflexivity | exact H1]|].
  split; [split; [vm_compute; reflexivity | exact H2]|].
  split; [vm_compute; reflexivity | exact H3].
Defined.

End ArrayStore.

(** ** The validators of the three servers and of the client *)

Section Validators.

Lemma class_no_space_spec (cs : cset) (c : N) :
  class_no_space cs = true -> in_cset cs c = true -> is_space c = false.
Proof.
  intros Hcs Hin. destruct (is_space c) eqn:S; [|reflexivity].
  unfold is_space in S. apply in_ranges_spec in S.
  destruct S as [w [Hw [Hw1 Hw2]]].
  destruct cs as [l|l]; unfold class_no_space, in_cset in Hcs, Hin.
  - apply in_ranges_spec in Hin. destruct Hin as [r [Hr [Hr1 Hr2]]].
    rewrite forallb_forall in Hcs. specialize (Hcs r Hr).
    rewrite forallb_forall in Hcs. specialize (Hcs w Hw).
    apply orb_true_iff in Hcs. destruct Hcs as [H|H];
      apply N.ltb_lt in H; lia.
  - rewrite forallb_forall in Hcs. specialize (Hcs w Hw).
    apply existsb_exists in Hcs. destruct Hcs as [r [Hr H]].
    apply andb_true_iff in H. destruct H as [H1 H2].
    apply N.leb_le in H1. apply N.leb_le in H2.
    apply negb_true_iff in Hin.
    assert (K : in_ranges l c = true)
      by (apply in_ranges_spec; exists r; split; [exact Hr | lia]).
    congruence.
Qed.

Lemma Matches_no_space (r : regex) (s : jsstring) :
  Matches r s -> no_space r = true ->
  forallb (fun c => negb (is_space c)) s = true.
Proof.
  induction 1; simpl; intros Hr; try reflexivity;
    try (apply andb_true_iff in Hr; destruct Hr as [Hr1 Hr2]);
    try rewrite forallb_app; auto.
  - rewrite (class_no_space_spec cs c Hr H). reflexivity.
  - rewrite IHMatches1, IHMatches2 by assumption. reflexivity.
  - rewrite IHMatches1, IHMatches2 by assumption. reflexivity.
Qed.

Lemma Matches_min_len (r : regex) (s : jsstring) :
  Matches r s -> min_len r <= List.length s.
Proof.
  induction 1; simpl; try rewrite length_app; lia.
Qed.

Lemma email_shape (s : jsstring) :
  test emailRegex s = true ->
  5 <= List.length s /\ forallb (fun c => negb (is_space c)) s = true.
Proof.
  intros H. apply test_sound in H. split.
  - apply Matches_min_len in H. exact H.
  - apply (Matches_no_space H). vm_compute. reflexivity.
Qed.

Lemma email_not_blank (s : jsstring) :
  test emailRegex s = true -> blank (Some s) = false.
Proof.
  intros H. destruct (email_shape s H) as [Hlen Hns].
  rewrite blank_trim. destruct (trim s) eqn:T; [|reflexivity].
  apply trim_nil in T. destruct s as [|c s]; [simpl in Hlen; lia|].
  simpl in T, Hns. apply andb_true_iff in T. apply andb_true_iff in Hns.
  destruct T as [T _]. destruct Hns as [Hns _]. rewrite T in Hns.
  discriminate.
Qed.

Lemma sql_email_of_memory (e : jsstring) :
  validateEmail (Some e) = None -> SqlServer.validateEmail (Some e) = None.
Proof.
  unfold validateEmail, SqlServer.validateEmail. fold (blank (Some e)).
  destruct (blank (Some e)); [discriminate|].
  destruct (test emailRegex e) eqn:T; [|discriminate]. intros _.
  pose proof (email_shape e T) as [Hlen _].
  destruct e; [simpl in Hlen; lia | reflexivity].
Qed.

(** X21. An email address is accepted exactly when it matches the email
    pattern, by the in-memory servers, by the MySQL-backed server and by
    the React client alike: the "required" test never rejects an address
    that matches.  An accepted address has at least five code units and no
    white space. *)
Theorem email_accepted_iff_pattern (s : jsstring) :
  (Fields.validateEmail (Some s) = None <-> test emailRegex s = true)
  /\ (SqlServer.validateEmail (Some s) = None <-> test emailRegex s = true)
  /\ (ContactManager.validateEmail s = None <-> test emailRegex s = true)
  /\ (test emailRegex s = true ->
      5 <= List.length s
      /\ forallb (fun c => negb (is_space c)) s = true).
Proof.
  split; [|split; [|split; [|apply email_shape]]].
  - unfold Fields.validateEmail. fold (blank (Some s)).
    destruct (test emailRegex s) eqn:T.
    + rewrite (email_not_blank s T). split; reflexivity.
    + destruct (blank (Some s)); split; discriminate.
  - unfold SqlServer.validateEmail.
    destruct (test emailRegex s) eqn:T.
    + pose proof (email_shape s T) as [Hlen _].
      destruct s; [simpl in Hlen; lia|]. split; reflexivity.
    + destruct (falsy (Some s)); split; discriminate.
  - unfold ContactManager.validateEmail.
    destruct (test emailRegex s); split; (reflexivity || discriminate).
Qed.

Lemma email_accepted_iff_pattern_witness :
  5 <= List.length (lit "jo@x.com")
  /\ forallb (fun c => negb (is_space c)) (lit "jo@x.com") = true.
Proof.
  apply (email_accepted_iff_pattern (lit "jo@x.com")).
  vm_compute. reflexivity.
Defined.

(** X22. A phone number is accepted exactly when it matches the phone
    pattern, by the in-memory servers, the MySQL-backed server and the
    React client alike: the count of digits only chooses the message of a
    rejection, it never rejects a number that matches. *)
Theorem phone_accepted_iff_pattern (s : jsstring) :
  (Fields.validatePhone (Some s) = None <-> test phoneRegex s = true)
  /\ (SqlServer.validatePhone (Some s) = None <-> test phoneRegex s = true)
  /\ (ContactManager.validatePhone s = None <-> test phoneRegex s = true).
Proof.
  split; [|split].
  - rewrite validatePhone_accepts. split; [tauto|].
    intros H. split; [apply phoneRegex_ten_digits|]; exact H.
  - rewrite sql_validatePhone_accepts. split; [tauto|].
    intros H. split; [apply phoneRegex_ten_digits|]; exact H.
  - unfold ContactManager.validatePhone. fold (digitsOnly s).
    destruct (test phoneRegex s) eqn:T.
    + pose proof (phoneRegex_ten_digits s T) as H.
      destruct (Nat.ltb_spec (List.length (digitsOnly s)) 10); [lia|].
      split; reflexivity.
    + destruct (List.length (digitsOnly s) <? 10)%nat; split; discriminate.
Qed.

(** X23. A contact that passes the rules of the in-memory servers and
    whose id and address, untrimmed, have at most 10 and 200 code units
    passes the validation of the MySQL-backed server with an empty
    report. *)
Theorem memory_valid_is_sql_valid (c : contact)
  (Hok : record_ok c = true)
  (Hid : forall k, Http.id c = Some k -> List.length k <= 10)
  (Haddress : forall a, address c = Some a -> List.length a <= 200) :
  SqlServer.validateContact c = [].
Proof.
  unfold record_ok in Hok.
  repeat (apply andb_true_iff in Hok; destruct Hok as [Hok ?]).
  assert (Hf : forall v, negb (blank v) = true -> falsy v = false).
  { intros [x|]; simpl; [|discriminate].
    destruct x; simpl; [discriminate | reflexivity]. }
  unfold SqlServer.validateContact.
  rewrite (Hf _ Hok).
  destruct (Http.id c) as [k|] eqn:K; [|discriminate].
  destruct (Nat.ltb_spec 10 (List.length k)) as [L|L];
    [specialize (Hid k eq_refl); lia|].
  rewrite (Hf (firstName c)), (Hf (lastName c)) by assumption.
  destruct (email c) as [e|] eqn:E; [|discriminate].
  destruct (phone c) as [p|] eqn:P; [|discriminate].
  assert (He : SqlServer.validateEmail (Some e) = None).
  { apply sql_email_of_memory.
    destruct (validateEmail (Some e)) eqn:V; [discriminate | reflexivity]. }
  assert (Hp : SqlServer.validatePhone (Some p) = None).
  { apply sql_validatePhone_accepts. apply validatePhone_accepts.
    destruct (validatePhone (Some p)) eqn:V; [discriminate | reflexivity]. }
  rewrite He, Hp. cbn.
  unfold SqlServer.validateAddress.
  destruct (address c) as [a|]; [|reflexivity].
  destruct (Nat.ltb_spec 200 (List.length a)) as [L'|L'];
    [specialize (Haddress a eq_refl); lia|].
  rewrite andb_false_r. reflexivity.
Qed.

Lemma memory_valid_is_sql_valid_witness :
  SqlServer.validateContact (sample "A1") = [].
Proof.
  apply memory_valid_is_sql_valid.
  - vm_compute. reflexivity.
  - intros k H. injection H as <-. vm_compute. repeat constructor.
  - intros a H. discriminate.
Defined.

End Validators.

(** ** The form validation of the React client *)

Section Client.

Import ContactManager.

Lemma empty_trim_blank (s : jsstring) : empty_trim s = blank (Some s).
Proof. unfold empty_trim. rewrite blank_trim. reflexivity. Qed.

Lemma get_prop_set (k k' v : string) (o : report) :
  get_prop k (set_prop k' v o)
  = if String.eqb k' k then Some v else get_prop k o.
Proof.
  induction o as [|[k0 v0] o IH]; simpl.
  - destruct (String.eqb k' k); reflexivity.
  - destruct (String.eqb k0 k') eqn:E; simpl.
    + apply String.eqb_eq in E. subst k0.
      destruct (String.eqb k' k); reflexivity.
    + destruct (String.eqb k0 k) eqn:E'; [|exact IH].
      apply String.eqb_eq in E'. subst k0.
      rewrite String.eqb_sym, E. reflexivity.
Qed.

Lemma get_prop_if_other (b : bool) (k k' v : string) (o : report) :
  String.eqb k' k = false ->
  get_prop k (if b then set_prop k' v o else o) = get_prop k o.
Proof.
  intros H. destruct b; [|reflexivity]. rewrite get_prop_set, H.
  reflexivity.
Qed.

Lemma get_prop_if_same (b : bool) (k v : string) (o : report) :
  get_prop k (if b then set_prop k v o else o)
  = if b then Some v else get_prop k o.
Proof.
  destruct b; [|reflexivity]. rewrite get_prop_set, String.eqb_refl.
  reflexivity.
Qed.

Lemma has_errors_if (b : bool) (k v : string) (o : report) :
  has_errors (if b then set_prop k v o else o) = false ->
  b = false /\ has_errors o = false.
Proof.
  destruct b; [|auto]. unfold has_errors, keys.
  destruct o as [|[k0 v0] o]; simpl; [discriminate|].
  destruct (String.eqb k0 k); discriminate.
Qed.

Lemma client_phone_of_blank (s : jsstring) :
  empty_trim s = true ->
  validatePhone s = Some "Phone number must have at least 10 digits".
Proof.
  rewrite empty_trim_blank. intros H. unfold validatePhone.
  rewrite (blank_no_digits s H). reflexivity.
Qed.

Lemma client_email_of_blank (s : jsstring) :
  empty_trim s = true ->
  validateEmail s = Some "Please enter a valid email address".
Proof.
  rewrite empty_trim_blank. intros H. unfold validateEmail.
  destruct (test emailRegex s) eqn:T; [|reflexivity].
  rewrite (email_not_blank s T) in H. discriminate.
Qed.

(** X24. The form validation of the client looks at the phone number and
    at the email address only when they are blank: a blank phone number
    gets the message "Phone number must have at least 10 digits", a blank
    email address the message "Please enter a valid email address", and a
    phone number or email address that is not blank gets no message,
    whatever it is. *)
Theorem form_checks_phone_and_email_only_when_blank (editing : bool)
  (contacts : list contact) (f : form) :
  get_prop "phone" (validateForm editing contacts f)
  = (if empty_trim (phone f)
     then Some "Phone number must have at least 10 digits" else None)
  /\ get_prop "email" (validateForm editing contacts f)
     = (if empty_trim (email f)
        then Some "Please enter a valid email address" else None).
Proof.
  unfold validateForm. cbv zeta.
  assert (Haddress : forall k o,
             String.eqb "address" k = false ->
             get_prop k
               match address f with
               | Some a =>
                   if truthy (address f) && (200 <? List.length (trim a))%nat
                   then set_prop "address"
                          "Address must be 200 characters or less" o
                   else o
               | None => o
               end = get_prop k o).
  { intros k o Hk. destruct (address f) as [a|]; [|reflexivity].
    apply get_prop_if_other. exact Hk. }
  split.
  - rewrite Haddress by reflexivity.
    rewrite get_prop_if_other by reflexivity.
    rewrite get_prop_if_same.
    destruct (empty_trim (phone f)) eqn:Hphone.
    + rewrite (client_phone_of_blank _ Hphone). reflexivity.
    + rewrite !get_prop_if_other by reflexivity.
      destruct (empty_trim (id f)); [reflexivity|].
      destruct (10 <? List.length (trim (id f)))%nat; [reflexivity|].
      destruct (negb editing && _); reflexivity.
  - rewrite Haddress by reflexivity.
    rewrite get_prop_if_same.
    destruct (empty_trim (email f)) eqn:Hemail.
    + rewrite (client_email_of_blank _ Hemail). reflexivity.
    + rewrite !get_prop_if_other by reflexivity.
      destruct (empty_trim (id f)); [reflexivity|].
      destruct (10 <? List.length (trim (id f)))%nat; [reflexivity|].
      destruct (negb editing && _); reflexivity.
Qed.

Example form_accepts_bad_phone :
  validateForm false [] (sample_form "A1" "bad" "junk") = []
  /\ validatePhone (lit "bad")
     = Some "Phone number must have at least 10 digits"
  /\ handleAdd_request false [] (sample_form "A1" "bad" "junk")
     = Some (mkContact (Some (lit "A1")) (Some (lit "Jo")) (Some (lit "Li"))
               (Some (lit "bad")) None (Some (lit "junk"))).
Proof. repeat split; vm_compute; reflexivity. Qed.

Lemma form_no_errors_id (editing : bool) (contacts : list contact)
  (f : form) :
  has_errors (validateForm editing contacts f) = false ->
  empty_trim (id f) = false
  /\ (List.length (trim (id f)) <= 10)%nat.
Proof.
  unfold validateForm. cbv zeta. intros H.
  assert (H5 : forall o,
             has_errors
               match address f with
               | Some a =>
                   if truthy (address f) && (200 <? List.length (trim a))%nat
                   then set_prop "address"
                          "Address must be 200 characters or less" o
                   else o
               | None => o
               end = false -> has_errors o = false).
  { intros o Ho. destruct (address f) as [a|]; [|exact Ho].
    apply has_errors_if in Ho. apply Ho. }
  apply H5 in H.
  do 4 (apply has_errors_if in H; destruct H as [_ H]).
  destruct (empty_trim (id f)); [discriminate|].
  destruct (Nat.ltb_spec 10 (List.length (trim (id f)))); [discriminate|].
  split; [reflexivity | lia].
Qed.

(** X25. The request that [handleAdd] sends carries the id of the form
    trimmed: its id has no surrounding white space and between one and ten
    code units.  On the Map-backed server such a request never replaces a
    record: when its id is a key of the Map the answer is 400 with "ID
    already exists" and the Map is as before. *)
Theorem client_add_never_overwrites (editing : bool)
  (contacts : list contact) (f : form) (request : contact)
  (Hsent : handleAdd_request editing contacts f = Some request) :
  exists k,
    Http.id request = Some k
    /\ trim k = k
    /\ (0 < List.length k <= 10)%nat
    /\ forall store,
         In k (MapServer.Map_keys store) ->
         exists errors,
           MapServer.post_contacts request store
           = (mkResponse 400 (JValidation "Validation failed" errors),
              store)
           /\ get_prop "id" errors = Some "ID already exists".
Proof.
  unfold handleAdd_request in Hsent.
  destruct (has_errors (validateForm editing contacts f)) eqn:E;
    [discriminate|].
  injection Hsent as <-.
  destruct (form_no_errors_id editing contacts f E) as [Hne Hlen].
  exists (trim (id f)). split; [reflexivity|].
  split; [apply trim_idempotent|].
  assert (Hpos : (0 < List.length (trim (id f)) <= 10)%nat).
  { split; [|exact Hlen]. unfold empty_trim in Hne.
    destruct (trim (id f)); [discriminate | simpl; lia]. }
  split; [exact Hpos|].
  intros store Hin.
  apply (@Map_post_known_id (contactToAdd f) (trim (id f)) store eq_refl);
    rewrite trim_idempotent; assumption.
Qed.

Lemma client_add_never_overwrites_witness :
  exists k,
    Http.id (contactToAdd (sample_form " A1 " "555-123-4567" "jo@x.com"))
    = Some k
    /\ trim k = k
    /\ (0 < List.length k <= 10)%nat
    /\ forall store,
         In k (MapServer.Map_keys store) ->
         exists errors,
           MapServer.post_contacts
             (contactToAdd (sample_form " A1 " "555-123-4567" "jo@x.com"))
             store
           = (mkResponse 400 (JValidation "Validation failed" errors),
              store)
           /\ get_prop "id" errors = Some "ID already exists".
Proof.
  apply (@client_add_never_overwrites false []
           (sample_form " A1 " "555-123-4567" "jo@x.com")).
  vm_compute. reflexivity.
Defined.

(** X26. On an update the client never holds back a contact that the
    in-memory servers accept: if the contact of the form passes the field
    rules of the server, the form validation reports nothing and the
    request is sent. *)
Theorem client_update_passes_server_valid (contacts : list contact)
  (f : form)
  (Hok : record_ok
           (mkContact (Some (id f)) (Some (firstName f))
              (Some (lastName f)) (Some (phone f)) (address f)
              (Some (email f))) = true) :
  validateForm true contacts f = []
  /\ handleUpdate_request true contacts f
     = Some (mkContact (Some (id f)) (Some (firstName f))
               (Some (lastName f)) (Some (phone f)) (address f)
               (Some (email f))).
Proof.
  assert (Hform : validateForm true contacts f = []).
  { unfold record_ok in Hok.
    cbn [Http.id Http.firstName Http.lastName Http.phone Http.address
           Http.email] in Hok.
    repeat (apply andb_true_iff in Hok; destruct Hok as [Hok ?]).
    rewrite <- !empty_trim_blank in *.
    assert (Hp : empty_trim (phone f) = false).
    { destruct (empty_trim (phone f)) eqn:B; [|reflexivity].
      rewrite empty_trim_blank in B.
      destruct (Fields.validatePhone (Some (phone f))) eqn:V;
        [discriminate|].
      apply validatePhone_accepts in V. destruct V as [V _].
      unfold digitsOnly in V. rewrite (blank_no_digits _ B) in V.
      simpl in V. lia. }
    assert (He : empty_trim (email f) = false).
    { destruct (empty_trim (email f)) eqn:B; [|reflexivity].
      rewrite empty_trim_blank in B. unfold Fields.validateEmail in *.
      fold (blank (Some (email f))) in *. rewrite B in *. discriminate. }
    unfold validateForm. cbn [negb andb]. rewrite Hp, He.
    destruct (empty_trim (id f)); [discriminate|].
    destruct (Nat.ltb_spec 10 (List.length (trim (id f)))) as [L|L].
    { match goal with
      | K : (_ <=? 10)%nat = true |- _ => apply Nat.leb_le in K; lia
      end. }
    destruct (empty_trim (firstName f)); [discriminate|].
    destruct (empty_trim (lastName f)); [discriminate|].
    unfold Fields.validateAddress in *.
    destruct (address f) as [a|]; [|reflexivity].
    destruct (truthy (Some a) && (200 <? List.length (trim a))%nat);
      [discriminate | reflexivity]. }
  split; [exact Hform|].
  unfold handleUpdate_request. rewrite Hform. reflexivity.
Qed.

Lemma client_update_passes_server_valid_witness :
  validateForm true [] (sample_form "A1" "555-123-4567" "jo@x.com") = []
  /\ handleUpdate_request true []
       (sample_form "A1" "555-123-4567" "jo@x.com")
     = Some (sample "A1").
Proof.
  apply (@client_update_passes_server_valid []
           (sample_form "A1" "555-123-4567" "jo@x.com")).
  vm_compute. reflexivity.
Defined.

End Client.

(** ** Round trips and duplicated rules *)

Section RoundTrips.

Import MapServer.

(** X27. In a Map whose keys have no surrounding white space, deleting a
    contact right after it was added gives back the Map as it was before
    the add. *)
Theorem map_post_then_delete_restores (c : contact) (contacts : Map)
  (Htrimmed : keys_trimmed contacts)
  (Hcreated : status (fst (post_contacts c contacts)) = 201%Z) :
  exists k,
    Http.id c = Some k
    /\ delete_contact k (snd (post_contacts c contacts))
       = (mkResponse 200 (JMessage "Contact deleted successfully"),
          contacts).
Proof.
  destruct (Map_post_created c contacts
              (surjective_pairing (post_contacts c contacts)) Hcreated)
    as [k [Hid [Hs [_ Hhas]]]].
  pose proof (keys_trimmed_has k Htrimmed Hhas) as Habsent.
  exists k. split; [exact Hid|].
  rewrite Hs, Map_delete_run. unfold Map_has at 1. rewrite Map_get_set.
  f_equal. rewrite (Map_set_absent _ _ _ Habsent).
  unfold Map_delete. rewrite filter_app. simpl. rewrite str_eqb_refl.
  simpl. rewrite app_nil_r. apply Map_delete_absent. exact Habsent.
Qed.

Lemma map_post_then_delete_restores_witness :
  exists k,
    Http.id (sample "B2") = Some k
    /\ delete_contact k
         (snd (post_contacts (sample "B2") [(lit "A1", sample "A1")]))
       = (mkResponse 200 (JMessage "Contact deleted successfully"),
          [(lit "A1", sample "A1")]).
Proof.
  apply map_post_then_delete_restores.
  - constructor; [vm_compute; reflexivity | constructor].
  - vm_compute. reflexivity.
Defined.

(** X28. The two copies of the id rule in the React client agree: the
    entry that [validateForm] makes for the id is what [validateId]
    returns for it. *)
Theorem client_id_rules_agree (editing : bool) (contacts : list contact)
  (f : ContactManager.form) :
  get_prop "id" (ContactManager.validateForm editing contacts f)
  = ContactManager.validateId editing contacts (ContactManager.id f).
Proof.
  unfold ContactManager.validateForm, ContactManager.validateId. cbv zeta.
  destruct (ContactManager.address f) as [a|];
    rewrite ?get_prop_if_other by reflexivity;
    destruct (ContactManager.empty_trim (ContactManager.id f));
    try reflexivity;
    destruct (10 <? List.length (trim (ContactManager.id f)))%nat;
    try reflexivity;
    destruct (negb editing && _); reflexivity.
Qed.

End RoundTrips.

(** ** Bodies with a property that is not a string *)

Section JsonBodies.

Lemma Json_blank_plain (v : field) :
  Json.blank (Json.Plain v) = Json.Returned (blank v).
Proof. destruct v as [[|c s]|]; reflexivity. Qed.

Lemma Json_validateEmail_plain (v : field) :
  Json.validateEmail (Json.Plain v) = Json.Returned (validateEmail v).
Proof.
  unfold Json.validateEmail. rewrite Json_blank_plain. cbn [Json.andThen].
  destruct v as [[|c s]|]; try reflexivity.
  unfold validateEmail, blank. destruct (falsy _ || falsy _); reflexivity.
Qed.

Lemma Json_validatePhone_plain (v : field) :
  Json.validatePhone (Json.Plain v) = Json.Returned (validatePhone v).
Proof.
  unfold Json.validatePhone. rewrite Json_blank_plain. cbn [Json.andThen].
  destruct v as [[|c s]|]; try reflexivity.
  unfold validatePhone, blank. destruct (falsy _ || falsy _); reflexivity.
Qed.

Lemma Json_validateAddress_plain (v : field) :
  Json.validateAddress (Json.Plain v) = Json.Returned (validateAddress v).
Proof. destruct v as [[|c s]|]; reflexivity. Qed.

Lemma Json_Map_validateId_plain (v : field) (b : bool) (s : MapServer.Map) :
  Json.validateId MapServer.Map_has "ID already exists" (Json.Plain v) b s
  = (Json.Returned (fst (MapServer.validateId v b s)), s).
Proof.
  unfold Json.validateId, MapServer.validateId.
  rewrite Json_blank_plain. destruct v as [x|]; [|reflexivity].
  destruct (blank (Some x)); [reflexivity|]. cbn [Json.trim_of].
  destruct (10 <? List.length (trim x))%nat; [reflexivity|].
  destruct b; reflexivity.
Qed.

Lemma Json_Array_validateId_plain (v : field) (b : bool)
  (s : list contact) :
  Json.validateId
    (fun k contacts =>
       match find (ArrayServer.id_is k) contacts with
       | Some _ => true
       | None => false
       end)
    "ID already exists. Please choose a different ID." (Json.Plain v) b s
  = (Json.Returned (fst (ArrayServer.validateId v b s)), s).
Proof.
  unfold Json.validateId, ArrayServer.validateId.
  rewrite Json_blank_plain. destruct v as [x|]; [|reflexivity].
  destruct (blank (Some x)); [reflexivity|]. cbn [Json.trim_of].
  destruct (10 <? List.length (trim x))%nat; [reflexivity|].
  destruct b; [|reflexivity]. run.
  destruct (find (ArrayServer.id_is (trim x)) s); reflexivity.
Qed.

(** Validation of a body: a thrown [TypeError] when some property is a
    truthy value that is not a string, and otherwise the report of the
    contact made of its properties.  The store is only read. *)
Lemma Json_Map_validate (b : Json.body) (isNewContact : bool)
  (s : MapServer.Map) :
  Json.Map_validateContact b isNewContact s
  = (if Json.has_truthy b then Json.Thrown
     else Json.Returned
            (fst (MapServer.validateContact (Json.to_contact b)
                    isNewContact s)),
     s).
Proof.
  unfold Json.Map_validateContact, Json.validateContact,
    MapServer.validateContact, Json.has_truthy, Json.to_contact.
  unfold bind, ret.
  destruct b as [i f l p a e]. cbn [Json.id Json.firstName Json.lastName
    Json.phone Json.address Json.email Http.id Http.firstName Http.lastName
    Http.phone Http.address Http.email].
  destruct i as [i|]; [|reflexivity]. cbn [Json.plain].
  rewrite Json_Map_validateId_plain.
  pose proof (Map_validateId_state i isNewContact s) as Hs.
  destruct (MapServer.validateId i isNewContact s) as [idError s'].
  simpl in Hs. subst s'. cbn [fst Json.plain Json.andThen
    Json.is_truthy_other orb].
  destruct f as [f|]; [|reflexivity]. rewrite Json_blank_plain.
  cbn [Json.andThen Json.plain Json.is_truthy_other orb].
  destruct l as [l|]; [|reflexivity]. rewrite Json_blank_plain.
  cbn [Json.andThen Json.plain Json.is_truthy_other orb].
  destruct e as [e|];
    [rewrite Json_validateEmail_plain
    |destruct p, a; reflexivity].
  cbn [Json.andThen Json.plain Json.is_truthy_other orb].
  destruct p as [p|]; [rewrite Json_validatePhone_plain
                      |destruct a; reflexivity].
  cbn [Json.andThen Json.plain Json.is_truthy_other orb].
  destruct a as [a|]; [rewrite Json_validateAddress_plain | reflexivity].
  reflexivity.
Qed.

Lemma Json_Array_validate (b : Json.body) (isNewContact : bool)
  (s : list contact) :
  Json.Array_validateContact b isNewContact s
  = (if Json.has_truthy b then Json.Thrown
     else Json.Returned
            (fst (ArrayServer.validateContact (Json.to_contact b)
                    isNewContact s)),
     s).
Proof.
  unfold Json.Array_validateContact, Json.validateContact,
    ArrayServer.validateContact, Json.has_truthy, Json.to_contact.
  unfold bind, ret.
  destruct b as [i f l p a e]. cbn [Json.id Json.firstName Json.lastName
    Json.phone Json.address Json.email Http.id Http.firstName Http.lastName
    Http.phone Http.address Http.email].
  destruct i as [i|]; [|reflexivity]. cbn [Json.plain].
  rewrite Json_Array_validateId_plain.
  pose proof (Array_validateId_state i isNewContact s) as Hs.
  destruct (ArrayServer.validateId i isNewContact s) as [idError s'].
  simpl in Hs. subst s'. cbn [fst Json.plain Json.andThen
    Json.is_truthy_other orb].
  destruct f as [f|]; [|reflexivity]. rewrite Json_blank_plain.
  cbn [Json.andThen Json.plain Json.is_truthy_other orb].
  destruct l as [l|]; [|reflexivity]. rewrite Json_blank_plain.
  cbn [Json.andThen Json.plain Json.is_truthy_other orb].
  destruct e as [e|];
    [rewrite Json_validateEmail_plain
    |destruct p, a; reflexivity].
  cbn [Json.andThen Json.plain Json.is_truthy_other orb].
  destruct p as [p|]; [rewrite Json_validatePhone_plain
                      |destruct a; reflexivity].
  cbn [Json.andThen Json.plain Json.is_truthy_other orb].
  destruct a as [a|]; [rewrite Json_validateAddress_plain | reflexivity].
  reflexivity.
Qed.

End JsonBodies.

(** ** The rules of validation, field by field *)

Section Rules.












(** A body is either one with a truthy property that is not a string, or
    the body of a contact. *)
Lemma Json_body_cases (b : Json.body) :
  Json.has_truthy b = true
  \/ exists c, b = Json.of_contact c /\ Json.has_truthy b = false.
Proof.
  destruct b as [[i|] [f|] [l|] [p|] [a|] [e|]];
    try (left; reflexivity).
  right. exists (mkContact i f l p a e). split; reflexivity.
Qed.

Lemma Json_to_of_contact (c : contact) :
  Json.to_contact (Json.of_contact c) = c.
Proof. destruct c. reflexivity. Qed.

Lemma Json_of_contact_plain (c : contact) :
  Json.has_truthy (Json.of_contact c) = false.
Proof. reflexivity. Qed.

(** The handlers on bodies: 500 when validation throws, and otherwise
    what they do with the contact made of the properties. *)
Lemma Json_Map_post_thrown (b : Json.body) (s : MapServer.Map) :
  Json.has_truthy b = true -> Json.Map_post b s = (Json.internal_error, s).
Proof.
  intros T. unfold Json.Map_post, bind. rewrite Json_Map_validate, T.
  reflexivity.
Qed.

Lemma Json_Map_post_plain (c : contact) (s : MapServer.Map) :
  Json.Map_post (Json.of_contact c) s = MapServer.post_contacts c s.
Proof.
  unfold Json.Map_post, bind.
  rewrite Json_Map_validate, Json_of_contact_plain, Json_to_of_contact.
  rewrite Map_post_run. cbv zeta.
  destruct (has_errors (fst (MapServer.validateContact c true s)));
    [reflexivity|].
  cbn [Json.id Json.of_contact]. destruct (Http.id c); reflexivity.
Qed.

Lemma Json_Array_post_thrown (b : Json.body) (s : list contact) :
  Json.has_truthy b = true -> Json.Array_post b s = (Json.internal_error, s).
Proof.
  intros T. unfold Json.Array_post, bind. rewrite Json_Array_validate, T.
  reflexivity.
Qed.

Lemma Json_Array_post_plain (c : contact) (s : list contact) :
  Json.Array_post (Json.of_contact c) s = ArrayServer.post_contacts c s.
Proof.
  unfold Json.Array_post, bind.
  rewrite Json_Array_validate, Json_of_contact_plain, Json_to_of_contact.
  rewrite Array_post_run. cbv zeta.
  destruct (has_errors (fst (ArrayServer.validateContact c true s)));
    reflexivity.
Qed.

Lemma Json_Array_put_thrown (id : jsstring) (b : Json.body)
  (s : list contact) :
  Json.has_truthy b = true ->
  Json.Array_put id b s
  = (if (ArrayServer.findIndex (ArrayServer.id_is id) s =? -1)%Z
     then mkResponse 404 (JError "Contact not found")
     else Json.internal_error, s).
Proof.
  intros T. unfold Json.Array_put. run.
  destruct (ArrayServer.findIndex (ArrayServer.id_is id) s =? -1)%Z;
    [reflexivity|].
  fold (@bind (list contact)). rewrite Json_Array_validate, T. reflexivity.
Qed.

Lemma Json_Array_put_plain (id : jsstring) (c : contact)
  (s : list contact) :
  Json.Array_put id (Json.of_contact c) s = ArrayServer.put_contact id c s.
Proof.
  rewrite Array_put_run. cbv zeta. unfold Json.Array_put. run.
  destruct (ArrayServer.findIndex (ArrayServer.id_is id) s =? -1)%Z;
    [reflexivity|].
  rewrite Json_Array_validate, Json_of_contact_plain, Json_to_of_contact.
  destruct (has_errors (fst (ArrayServer.validateContact c false s)));
    reflexivity.
Qed.

End Rules.

(** ** Requests with any JSON body *)

Section JsonRoutes.




(** X3. [POST /contacts] of the Map-backed server answers 201, 400 or
    500, and 500 exactly when some property of the body is a truthy value
    that is not a string.  Unless it answers 201 it leaves the Map as it
    was; when it answers 201 the id of the body is a string and the
    entry of every other key is as before. *)
Theorem map_post_touches_only_its_key (b : Json.body)
  (contacts : MapServer.Map) :
  (status (fst (Json.Map_post b contacts)) = 201%Z
   \/ status (fst (Json.Map_post b contacts)) = 400%Z
   \/ status (fst (Json.Map_post b contacts)) = 500%Z)
  /\ (status (fst (Json.Map_post b contacts)) = 500%Z
      <-> Json.has_truthy b = true)
  /\ (status (fst (Json.Map_post b contacts)) <> 201%Z ->
      snd (Json.Map_post b contacts) = contacts)
  /\ (status (fst (Json.Map_post b contacts)) = 201%Z ->
      exists k, Json.id b = Json.Plain (Some k)
        /\ forall k', k' <> k ->
             MapServer.Map_get k' (snd (Json.Map_post b contacts))
             = MapServer.Map_get k' contacts).
Proof.
  destruct (Json_body_cases b) as [T | [c [-> T]]].
  - rewrite (Json_Map_post_thrown b contacts T), T. cbn [fst snd].
    split; [right; right; reflexivity|].
    split; [split; reflexivity|].
    split; [reflexivity | discriminate].
  - rewrite T, Json_Map_post_plain.
    destruct (Map_post_cases c contacts) as [H1 [H2 H3]].
    split; [destruct H1 as [H1|H1]; auto|].
    split; [split; [|discriminate]; destruct H1 as [H1|H1]; rewrite H1;
            discriminate|].
    split.
    + intros N. apply H2. destruct H1 as [H1|H1]; [contradiction|exact H1].
    + intros H. destruct (H3 H) as [k [Hk Hget]]. exists k.
      cbn [Json.id Json.of_contact]. rewrite Hk. auto.
Qed.

Lemma map_post_touches_only_its_key_witness :
  snd (Json.Map_post (number_for_name (Some (lit "B2")))
         (map_after [sample "A1"]))
  = map_after [sample "A1"]
  /\ exists k,
       Json.id (Json.of_contact (sample "B2")) = Json.Plain (Some k)
       /\ forall k', k' <> k ->
            MapServer.Map_get k'
              (snd (Json.Map_post (Json.of_contact (sample "B2"))
                      (map_after [sample "A1"])))
            = MapServer.Map_get k' (map_after [sample "A1"]).
Proof.
  split.
  - apply (map_post_touches_only_its_key (number_for_name (Some (lit "B2")))
             (map_after [sample "A1"])).
    vm_compute. discriminate.
  - apply (map_post_touches_only_its_key (Json.of_contact (sample "B2"))
             (map_after [sample "A1"])).
    vm_compute. reflexivity.
Defined.

(** X4. An add whose id, once trimmed, is a key of the Map never
    answers 201 and leaves the Map as it was, however the id is padded
    with white space: the answer is 400 with the entry "ID already exists"
    for the id, or 500 when some property of the body is a truthy value
    that is not a string. *)
Theorem map_post_rejects_trimmed_duplicate (b : Json.body) (x : jsstring)
  (contacts : MapServer.Map)
  (Hid : Json.id b = Json.Plain (Some x))
  (Hlen : (0 < List.length (trim x) <= 10)%nat)
  (Hin : In (trim x) (MapServer.Map_keys contacts)) :
  snd (Json.Map_post b contacts) = contacts
  /\ (Json.has_truthy b = true ->
      fst (Json.Map_post b contacts) = Json.internal_error)
  /\ (Json.has_truthy b = false ->
      exists errors,
        fst (Json.Map_post b contacts)
        = mkResponse 400 (JValidation "Validation failed" errors)
        /\ get_prop "id" errors = Some "ID already exists").
Proof.
  destruct (Json_body_cases b) as [T | [c [-> T]]].
  - rewrite (Json_Map_post_thrown b contacts T), T. cbn [fst snd].
    split; [reflexivity|]. split; [reflexivity | discriminate].
  - rewrite T, Json_Map_post_plain.
    cbn [Json.id Json.of_contact] in Hid.
    assert (Hid' : Http.id c = Some x) by congruence.
    destruct (@Map_post_known_id c x contacts Hid' Hlen Hin)
      as [errors [Hrun Hget]].
    rewrite Hrun. cbn [fst snd].
    split; [reflexivity|]. split; [discriminate|].
    intros _. exists errors. split; [reflexivity | exact Hget].
Qed.

Lemma map_post_rejects_trimmed_duplicate_witness :
  snd (Json.Map_post (Json.of_contact (sample " A1 "))
         (map_after [sample "A1"]))
  = map_after [sample "A1"]
  /\ (exists errors,
        fst (Json.Map_post (Json.of_contact (sample " A1 "))
               (map_after [sample "A1"]))
        = mkResponse 400 (JValidation "Validation failed" errors)
        /\ get_prop "id" errors = Some "ID already exists")
  /\ fst (Json.Map_post (number_for_name (Some (lit " A1 ")))
            (map_after [sample "A1"]))
     = Json.internal_error.
Proof.
  assert (Hlen : (0 < List.length (trim (lit " A1 ")) <= 10)%nat)
    by (vm_compute; lia).
  assert (Hin : In (trim (lit " A1 "))
                  (MapServer.Map_keys (map_after [sample "A1"])))
    by (vm_compute; left; reflexivity).
  destruct (@map_post_rejects_trimmed_duplicate
              (Json.of_contact (sample " A1 ")) (lit " A1 ")
              (map_after [sample "A1"]) eq_refl Hlen Hin) as [H1 [_ H2]].
  destruct (@map_post_rejects_trimmed_duplicate
              (number_for_name (Some (lit " A1 "))) (lit " A1 ")
              (map_after [sample "A1"]) eq_refl Hlen Hin) as [_ [H3 _]].
  split; [exact H1|]. split; [exact (H2 eq_refl) | exact (H3 eq_refl)].
Defined.

(** X16. The array-backed [PUT] validates the id of the payload, not the
    id of the route: a payload whose id is blank or missing never answers
    200 and leaves the array as it was.  When a contact with the route's
    id is stored, the answer is 400 with the entry "ID is required", or
    500 when some property of the payload is a truthy value that is not a
    string. *)
Theorem array_put_needs_id_in_payload (id : jsstring) (b : Json.body)
  (contacts : list contact)
  (Hblank : Json.blank (Json.id b) = Json.Returned true) :
  status (fst (Json.Array_put id b contacts)) <> 200%Z
  /\ snd (Json.Array_put id b contacts) = contacts
  /\ ((exists c, In c contacts /\ Http.id c = Some id) ->
      (Json.has_truthy b = true ->
       fst (Json.Array_put id b contacts) = Json.internal_error)
      /\ (Json.has_truthy b = false ->
          exists errors,
            fst (Json.Array_put id b contacts)
            = mkResponse 400 (JValidation "Validation failed" errors)
            /\ get_prop "id" errors = Some "ID is required")).
Proof.
  destruct (Json_body_cases b) as [T | [c [-> T]]].
  - rewrite (Json_Array_put_thrown id b contacts T), T. cbn [fst snd].
    destruct (findIndex_spec (ArrayServer.id_is id) contacts)
      as [[H1 H2] | [before [old [after [Hs [Hp [Hb Hi]]]]]]].
    + rewrite H1. cbn. split; [discriminate|]. split; [reflexivity|].
      intros [c [Hc Hc']]. apply id_is_true in Hc'.
      rewrite H2 in Hc' by exact Hc. discriminate.
    + rewrite Hi.
      destruct (Z.eqb_spec (Z.of_nat (List.length before)) (-1)); [lia|].
      cbn. split; [discriminate|]. split; [reflexivity|].
      intros _. split; [reflexivity | discriminate].
  - rewrite T, Json_Array_put_plain.
    cbn [Json.id Json.of_contact] in Hblank.
    rewrite Json_blank_plain in Hblank. injection Hblank as Hblank.
    destruct (@Array_put_blank_id id c contacts Hblank) as [H1 [H2 H3]].
    split; [exact H1|]. split; [exact H2|]. intros Hex.
    split; [discriminate|]. intros _. exact (H3 Hex).
Qed.

Lemma array_put_needs_id_in_payload_witness :
  snd (Json.Array_put (lit "A1") (Json.of_contact (phone_only "555-000-1111"))
         (array_after [sample "A1"]))
  = array_after [sample "A1"]
  /\ (exists errors,
        fst (Json.Array_put (lit "A1")
               (Json.of_contact (phone_only "555-000-1111"))
               (array_after [sample "A1"]))
        = mkResponse 400 (JValidation "Validation failed" errors)
        /\ get_prop "id" errors = Some "ID is required")
  /\ fst (Json.Array_put (lit "A1") (number_for_name None)
            (array_after [sample "A1"]))
     = Json.internal_error.
Proof.
  assert (Hex : exists c, In c (array_after [sample "A1"])
                          /\ Http.id c = Some (lit "A1")).
  { exists (sample "A1"). split; [vm_compute; left|]; reflexivity. }
  destruct (@array_put_needs_id_in_payload (lit "A1")
              (Json.of_contact (phone_only "555-000-1111"))
              (array_after [sample "A1"]) eq_refl) as [_ [H1 H2]].
  destruct (@array_put_needs_id_in_payload (lit "A1")
              (number_for_name None)
              (array_after [sample "A1"]) eq_refl) as [_ [_ H3]].
  split; [exact H1|].
  split; [exact (proj2 (H2 Hex) eq_refl) | exact (proj1 (H3 Hex) eq_refl)].
Defined.

(** X19. [POST /contacts] of the array-backed server does one of three
    things.  When some property of the body is a truthy value that is not
    a string it answers 500 and the array is as before.  Otherwise it
    answers 400 and the array is as before, or it answers 201 and the
    contact made of the properties of the body goes to the end of the
    array: the listing that follows is the listing before with that
    contact last, so [GET /contacts] lists in the order of insertion. *)
Theorem array_post_appends (b : Json.body) (contacts : list contact) :
  (Json.has_truthy b = true
   /\ Json.Array_post b contacts = (Json.internal_error, contacts))
  \/ (Json.has_truthy b = false
      /\ status (fst (Json.Array_post b contacts)) = 400%Z
      /\ snd (Json.Array_post b contacts) = contacts)
  \/ (Json.has_truthy b = false
      /\ status (fst (Json.Array_post b contacts)) = 201%Z
      /\ ArrayServer.get_contacts (snd (Json.Array_post b contacts))
         = (mkResponse 200 (JContacts (contacts ++ [Json.to_contact b])),
            contacts ++ [Json.to_contact b])).
Proof.
  destruct (Json_body_cases b) as [T | [c [-> T]]].
  - left. split; [exact T | apply Json_Array_post_thrown; exact T].
  - right. rewrite Json_Array_post_plain, Json_to_of_contact.
    destruct (Array_post_cases c contacts) as [[H1 H2] | [H1 H2]];
      [left | right]; auto.
Qed.

End JsonRoutes.
